(** * Black-Scholes pricer and implied-volatility solver

    A shallow embedding of [black_scholes.py] and [implied_vol.py].

    Modelling conventions.
    - A Python [float] that is an ordinary number is a real number ([R]);
      arithmetic is exact: no rounding, no overflow, no underflow, no
      infinities.  In particular a quotient of non-zero numbers is never
      zero and the normal density is never zero, which binary64 does not
      guarantee.  The theorems over [R] are about the formulas and the
      control flow of the code; none of them states a rounding tolerance.
    - The pricer and the parity check are embedded a second time over the
      binary64 numbers of the machine, in the module [Binary64], for the
      one statement that is about rounding (put-call parity within 1e-6).
    - The quiet not-a-number that the solvers return as their failure
      sentinel is a constructor of its own, [NaN], of the type [pyfloat] of
      solver results.
    - A Python [str] is a [string] of code points below 256.
    - A raised exception is the [Raise] branch of the [result] monad; the
      exception carries the message the source gives it.
    - [math.log], [math.sqrt] and float division raise on the arguments
      Python rejects; [scipy.stats.norm.pdf] and [norm.cdf] are the density
      and the distribution function of the standard normal law. *)

From Stdlib Require Import Reals Lra Psatz String Ascii List ZArith Bool.
From Stdlib Require PrimFloat.
Import ListNotations.

Open Scope R_scope.
Open Scope string_scope.

(** ** Exceptions and the result monad *)

Inductive exn : Type :=
| ValueError (msg : string)
| ZeroDivisionError (msg : string).

Inductive result (A : Type) : Type :=
| Ok (a : A)
| Raise (e : exn).

Arguments Ok {A} a.
Arguments Raise {A} e.

Definition bind {A B : Type} (c : result A) (k : A -> result B) : result B :=
  match c with
  | Ok a => k a
  | Raise e => Raise e
  end.

Notation "x <- c ;; k" := (bind c (fun x => k))
  (at level 61, c at next level, right associativity).

(** ** Comparisons of floats as booleans *)

Definition flt (x y : R) : bool := if Rlt_dec x y then true else false.
Definition fle (x y : R) : bool := if Rle_dec x y then true else false.
Definition feq (x y : R) : bool := if Req_dec_T x y then true else false.

(** Python's [max(a, b)] and [min(a, b)] keep the first argument on a tie. *)
Definition pymax (a b : R) : R := if flt a b then b else a.
Definition pymin (a b : R) : R := if flt b a then b else a.

(** ** Strings: [str.lower] and [str.strip] *)

Definition lower_char (c : ascii) : ascii :=
  let n := nat_of_ascii c in
  if ((65 <=? n) && (n <=? 90))%nat then ascii_of_nat (n + 32)
  else if ((192 <=? n) && (n <=? 222) && negb (n =? 215))%nat
       then ascii_of_nat (n + 32)
  else c.

Fixpoint lower (s : string) : string :=
  match s with
  | EmptyString => EmptyString
  | String c s' => String (lower_char c) (lower s')
  end.

(** The code points below 256 for which [str.isspace] holds. *)
Definition isspace (c : ascii) : bool :=
  let n := nat_of_ascii c in
  (((9 <=? n) && (n <=? 13)) || ((28 <=? n) && (n <=? 32))
   || (n =? 133) || (n =? 160))%nat.

Fixpoint lstrip (s : string) : string :=
  match s with
  | EmptyString => EmptyString
  | String c s' => if isspace c then lstrip s' else s
  end.

Fixpoint rstrip (s : string) : string :=
  match s with
  | EmptyString => EmptyString
  | String c s' =>
      match rstrip s' with
      | EmptyString => if isspace c then EmptyString else String c EmptyString
      | t => String c t
      end
  end.

Definition strip (s : string) : string := rstrip (lstrip s).

(** [x in (a, b)] on strings. *)
Definition str_in (x : string) (l : list string) : bool :=
  existsb (String.eqb x) l.

(** ** The [math] module and float division *)

Definition math_exp (x : R) : R := exp x.

Definition math_log (x : R) : result R :=
  if flt 0 x then Ok (ln x) else Raise (ValueError "math domain error").

Definition math_sqrt (x : R) : result R :=
  if fle 0 x then Ok (sqrt x) else Raise (ValueError "math domain error").

Definition fdiv (x y : R) : result R :=
  if feq y 0 then Raise (ZeroDivisionError "float division by zero")
  else Ok (x / y).

(** ** The standard normal law ([scipy.stats.norm]) *)

Definition norm_pdf (x : R) : R := exp (- (x * x) / 2) / sqrt (2 * PI).

Definition norm_pdf_integrable (a b : R) : Riemann_integrable norm_pdf a b.
Proof.
  assert (C : forall x : R, continuity_pt norm_pdf x)
    by (intros x; unfold norm_pdf; reg).
  destruct (Rle_dec a b) as [Hab | Hab].
  - apply continuity_implies_RiemannInt; [exact Hab | intros x _; apply C].
  - apply RiemannInt_P1.
    apply continuity_implies_RiemannInt; [lra | intros x _; apply C].
Defined.

(** [norm.cdf x]: one half plus the mass of the density between 0 and [x]. *)
Definition norm_cdf (x : R) : R := 1 / 2 + RiemannInt (norm_pdf_integrable 0 x).

(** ** black_scholes.py *)

(** The exception that the three entry points raise for a side that is
    neither a call nor a put. *)
Definition option_type_error : exn :=
  ValueError "option_type must be 'call' or 'put'.".

Definition _validate_inputs (S K T sigma : R) : result unit :=
  if fle S 0 then Raise (ValueError "Spot S must be > 0.")
  else if fle K 0 then Raise (ValueError "Strike K must be > 0.")
  else if flt T 0 then Raise (ValueError "Time to maturity T must be >= 0.")
  else if flt sigma 0 then Raise (ValueError "Volatility sigma must be >= 0.")
  else Ok tt.

Definition black_scholes_price (option_type : string) (S K T r q sigma : R)
  : result R :=
  let option_type := strip (lower option_type) in
  if negb (str_in option_type ["call"; "put"])
  then Raise (ValueError "option_type must be 'call' or 'put'.")
  else
    _ <- _validate_inputs S K T sigma ;;
    if feq T 0 then
      if String.eqb option_type "call"
      then Ok (pymax (S - K) 0)
      else Ok (pymax (K - S) 0)
    else if feq sigma 0 then
      let forward_T := S * math_exp ((r - q) * T) in
      let disc := math_exp (- r * T) in
      if String.eqb option_type "call"
      then Ok (disc * pymax (forward_T - K) 0)
      else Ok (disc * pymax (K - forward_T) 0)
    else
      sqrtT <- math_sqrt T ;;
      m <- fdiv S K ;;
      l <- math_log m ;;
      d1 <- fdiv (l + (r - q + 0.5 * sigma * sigma) * T) (sigma * sqrtT) ;;
      let d2 := d1 - sigma * sqrtT in
      let disc_q := math_exp (- q * T) in
      let disc_r := math_exp (- r * T) in
      if String.eqb option_type "call"
      then Ok (S * disc_q * norm_cdf d1 - K * disc_r * norm_cdf d2)
      else Ok (K * disc_r * norm_cdf (- d2) - S * disc_q * norm_cdf (- d1)).

Definition black_scholes_vega (S K T r q sigma : R) : result R :=
  _ <- _validate_inputs S K T sigma ;;
  if feq T 0 || feq sigma 0 then Ok 0
  else
    sqrtT <- math_sqrt T ;;
    m <- fdiv S K ;;
    l <- math_log m ;;
    d1 <- fdiv (l + (r - q + 0.5 * sigma * sigma) * T) (sigma * sqrtT) ;;
    Ok (S * math_exp (- q * T) * norm_pdf d1 * sqrtT).

(** [put_call_parity_check] compares two rounded numbers against a
    tolerance; it is embedded over binary64, in [Binary64] below. *)

(** ** implied_vol.py *)

(** The solvers return a float that may be the not-a-number sentinel. *)
Inductive pyfloat : Type :=
| Num (x : R)
| NaN.

Definition isnan (v : pyfloat) : bool :=
  match v with
  | NaN => true
  | Num _ => false
  end.

Definition _no_arbitrage_bounds (option_type : string) (S K T r q : R)
  : R * R :=
  let disc_q := math_exp (- q * T) in
  let disc_r := math_exp (- r * T) in
  if String.eqb option_type "call"
  then (pymax 0 (S * disc_q - K * disc_r), S * disc_q)
  else (pymax 0 (K * disc_r - S * disc_q), K * disc_r).

(** [not (lb - 1e-12 <= market_price <= ub + 1e-12)] *)
Definition outside_bounds (lb ub market_price : R) : bool :=
  negb (fle (lb - 1e-12) market_price && fle market_price (ub + 1e-12)).

(** The body of [for _ in range(max_iter)] in [implied_vol_newton], with
    [n] iterations left and the current [sigma]. *)
Fixpoint newton_loop (option_type : string)
    (market_price S K T r q tol vega_floor sigma_min sigma_max : R)
    (n : nat) (sigma : R) : result pyfloat :=
  match n with
  | O => Ok NaN
  | Datatypes.S n' =>
      price <- black_scholes_price option_type S K T r q sigma ;;
      let diff := price - market_price in
      if flt (Rabs diff) tol then Ok (Num sigma)
      else
        vega <- black_scholes_vega S K T r q sigma ;;
        if flt vega vega_floor then Ok NaN
        else
          step <- fdiv diff vega ;;
          let sigma := sigma - step in
          if flt sigma sigma_min || flt sigma_max sigma then Ok NaN
          else newton_loop option_type market_price S K T r q tol vega_floor
                 sigma_min sigma_max n' sigma
  end.

Definition implied_vol_newton (option_type : string)
    (market_price S K T r q initial_sigma tol : R) (max_iter : Z)
    (vega_floor sigma_min sigma_max : R) (enforce_bounds : bool)
  : result pyfloat :=
  let option_type := strip (lower option_type) in
  if negb (str_in option_type ["call"; "put"])
  then Raise (ValueError "option_type must be 'call' or 'put'.")
  else if flt market_price 0 then Ok NaN
  else if fle T 0 then Ok NaN
  else
    if (if enforce_bounds
        then let (lb, ub) := _no_arbitrage_bounds option_type S K T r q in
             outside_bounds lb ub market_price
        else false)
    then Ok NaN
    else
      let sigma := initial_sigma in
      let sigma := pymin (pymax sigma sigma_min) sigma_max in
      newton_loop option_type market_price S K T r q tol vega_floor
        sigma_min sigma_max (Z.to_nat max_iter) sigma.

(** The body of [for _ in range(max_iter)] in [implied_vol_bisection]. *)
Fixpoint bisection_loop (option_type : string)
    (market_price S K T r q tol : R)
    (n : nat) (low high f_low f_high : R) : result pyfloat :=
  match n with
  | O => Ok NaN
  | Datatypes.S n' =>
      let mid := 0.5 * (low + high) in
      p_mid <- black_scholes_price option_type S K T r q mid ;;
      let f_mid := p_mid - market_price in
      if flt (Rabs f_mid) tol || flt (high - low) tol then Ok (Num mid)
      else if fle (f_low * f_mid) 0
      then bisection_loop option_type market_price S K T r q tol n'
             low mid f_low f_mid
      else bisection_loop option_type market_price S K T r q tol n'
             mid high f_mid f_high
  end.

Definition implied_vol_bisection (option_type : string)
    (market_price S K T r q tol : R) (max_iter : Z)
    (sigma_low sigma_high : R) (enforce_bounds : bool)
  : result pyfloat :=
  let option_type := strip (lower option_type) in
  if negb (str_in option_type ["call"; "put"])
  then Raise (ValueError "option_type must be 'call' or 'put'.")
  else if flt market_price 0 || fle T 0 then Ok NaN
  else
    if (if enforce_bounds
        then let (lb, ub) := _no_arbitrage_bounds option_type S K T r q in
             outside_bounds lb ub market_price
        else false)
    then Ok NaN
    else
      let low := sigma_low in
      let high := sigma_high in
      p_low <- black_scholes_price option_type S K T r q low ;;
      let f_low := p_low - market_price in
      p_high <- black_scholes_price option_type S K T r q high ;;
      let f_high := p_high - market_price in
      if flt 0 (f_low * f_high) then Ok NaN
      else bisection_loop option_type market_price S K T r q tol
             (Z.to_nat max_iter) low high f_low f_high.

(** A call that leaves every keyword argument but [initial_sigma] to the
    default of the signature of [implied_vol_newton]. *)
Definition implied_vol_newton_default (option_type : string)
    (market_price S K T r q initial_sigma : R) : result pyfloat :=
  implied_vol_newton option_type market_price S K T r q initial_sigma
    1e-7 100 1e-10 1e-6 5.0 true.

(** A call that leaves every keyword argument to the default of the
    signature of [implied_vol_bisection]. *)
Definition implied_vol_bisection_default (option_type : string)
    (market_price S K T r q : R) : result pyfloat :=
  implied_vol_bisection option_type market_price S K T r q
    1e-7 200 1e-6 5.0 true.

(** The solver stages that a call of [implied_vol] enters, in order. *)
Inductive stage : Type :=
| Newton
| Bisection.

(** [implied_vol], together with the stages it ran. *)
Definition implied_vol_run (option_type : string)
    (market_price S K T r q initial_sigma : R)
  : list stage * result pyfloat :=
  match implied_vol_newton_default option_type market_price S K T r q
          initial_sigma with
  | Raise e => ([Newton], Raise e)
  | Ok sigma =>
      if isnan sigma
      then ([Newton; Bisection],
            implied_vol_bisection_default option_type market_price S K T r q)
      else ([Newton], Ok sigma)
  end.

Definition implied_vol (option_type : string)
    (market_price S K T r q initial_sigma : R) : result pyfloat :=
  snd (implied_vol_run option_type market_price S K T r q initial_sigma).

(** ** The vocabulary of the specification

    The definitions of this part follow the words of the specification
    (sections 3, 4.1, 4.2 and 4.3); the theorems below compare them with the
    functions above, which follow the source. *)

(** OptionSide: the closed enumeration of section 3. *)
Inductive OptionSide : Type :=
| Call
| Put.

Definition side_name (sd : OptionSide) : string :=
  match sd with
  | Call => "call"
  | Put => "put"
  end.

(** A side string denotes [sd] when its lowercased, stripped form is the
    name of [sd]. *)
Definition denotes (option_type : string) (sd : OptionSide) : Prop :=
  strip (lower option_type) = side_name sd.

Definition d1 (S K T r q sigma : R) : R :=
  (ln (S / K) + (r - q + 0.5 * sigma * sigma) * T) / (sigma * sqrt T).

Definition d2 (S K T r q sigma : R) : R :=
  d1 S K T r q sigma - sigma * sqrt T.

(** Section 4.1, [price]. *)
Definition price (sd : OptionSide) (S K T r q sigma : R) : R :=
  if feq T 0 then
    match sd with
    | Call => Rmax (S - K) 0
    | Put => Rmax (K - S) 0
    end
  else if feq sigma 0 then
    let forward := S * exp ((r - q) * T) in
    match sd with
    | Call => exp (- r * T) * Rmax (forward - K) 0
    | Put => exp (- r * T) * Rmax (K - forward) 0
    end
  else
    match sd with
    | Call => S * exp (- q * T) * norm_cdf (d1 S K T r q sigma)
              - K * exp (- r * T) * norm_cdf (d2 S K T r q sigma)
    | Put => K * exp (- r * T) * norm_cdf (- d2 S K T r q sigma)
             - S * exp (- q * T) * norm_cdf (- d1 S K T r q sigma)
    end.

(** Section 4.1, [vega]. *)
Definition vega (S K T r q sigma : R) : R :=
  if feq T 0 || feq sigma 0 then 0
  else S * exp (- q * T) * norm_pdf (d1 S K T r q sigma) * sqrt T.

(** Section 4.2, [bounds]. *)
Definition bounds (sd : OptionSide) (S K T r q : R) : R * R :=
  match sd with
  | Call => (Rmax 0 (S * exp (- q * T) - K * exp (- r * T)), S * exp (- q * T))
  | Put => (Rmax 0 (K * exp (- r * T) - S * exp (- q * T)), K * exp (- r * T))
  end.

(** The immediate rejection rules of section 4.3. *)
Definition rejected (sd : OptionSide) (market_price S K T r q : R)
    (enforce_bounds : bool) : Prop :=
  market_price < 0 \/ T <= 0
  \/ (enforce_bounds = true
      /\ (market_price < fst (bounds sd S K T r q) - 1e-12
          \/ snd (bounds sd S K T r q) + 1e-12 < market_price)).

(** Section 4.3, the Newton-Raphson iteration: [newton_iterates n sigma v]
    when [n] iterations that start at [sigma] end with the result [v]. *)
Inductive newton_iterates (f v' : R -> R)
    (tol vega_floor sigma_min sigma_max : R)
  : nat -> R -> pyfloat -> Prop :=
| newton_exhausted : forall sigma,
    newton_iterates f v' tol vega_floor sigma_min sigma_max O sigma NaN
| newton_converged : forall n sigma,
    Rabs (f sigma) < tol ->
    newton_iterates f v' tol vega_floor sigma_min sigma_max
      (Datatypes.S n) sigma (Num sigma)
| newton_unstable : forall n sigma,
    ~ Rabs (f sigma) < tol ->
    v' sigma < vega_floor ->
    newton_iterates f v' tol vega_floor sigma_min sigma_max
      (Datatypes.S n) sigma NaN
| newton_diverged : forall n sigma,
    ~ Rabs (f sigma) < tol ->
    ~ v' sigma < vega_floor ->
    (sigma - f sigma / v' sigma < sigma_min
     \/ sigma_max < sigma - f sigma / v' sigma) ->
    newton_iterates f v' tol vega_floor sigma_min sigma_max
      (Datatypes.S n) sigma NaN
| newton_updated : forall n sigma v,
    ~ Rabs (f sigma) < tol ->
    ~ v' sigma < vega_floor ->
    sigma_min <= sigma - f sigma / v' sigma <= sigma_max ->
    newton_iterates f v' tol vega_floor sigma_min sigma_max
      n (sigma - f sigma / v' sigma) v ->
    newton_iterates f v' tol vega_floor sigma_min sigma_max
      (Datatypes.S n) sigma v.

(** Section 4.3, the bisection iteration on the bracket [[low, high]]. *)
Inductive bisection_iterates (f : R -> R) (tol : R)
  : nat -> R -> R -> pyfloat -> Prop :=
| bisection_exhausted : forall low high,
    bisection_iterates f tol O low high NaN
| bisection_converged : forall n low high,
    Rabs (f ((low + high) / 2)) < tol \/ high - low < tol ->
    bisection_iterates f tol (Datatypes.S n) low high (Num ((low + high) / 2))
| bisection_lower : forall n low high v,
    ~ (Rabs (f ((low + high) / 2)) < tol \/ high - low < tol) ->
    f low * f ((low + high) / 2) <= 0 ->
    bisection_iterates f tol n low ((low + high) / 2) v ->
    bisection_iterates f tol (Datatypes.S n) low high v
| bisection_upper : forall n low high v,
    ~ (Rabs (f ((low + high) / 2)) < tol \/ high - low < tol) ->
    ~ f low * f ((low + high) / 2) <= 0 ->
    bisection_iterates f tol n ((low + high) / 2) high v ->
    bisection_iterates f tol (Datatypes.S n) low high v.

(** Section 4.3, the bisection sub-procedure once the rejection rules have
    passed. *)
Definition bisection_result (f : R -> R) (tol : R) (max_iter : nat)
    (sigma_low sigma_high : R) (v : pyfloat) : Prop :=
  (0 < f sigma_low * f sigma_high -> v = NaN)
  /\ (~ 0 < f sigma_low * f sigma_high ->
      bisection_iterates f tol max_iter sigma_low sigma_high v).



(** When the solver has no volatility to return for a price: the price
    fails a rejection rule of section 4.3, or its residuals at the two ends
    of the bisection bracket, 1e-6 and 5.0, have the same strict sign. *)
Definition unsolvable (sd : OptionSide) (market_price S K T r q : R)
  : Prop :=
  rejected sd market_price S K T r q true
  \/ 0 < (price sd S K T r q 1e-6 - market_price)
         * (price sd S K T r q 5.0 - market_price).

(** * The pricer over binary64

    The pricer and the parity check once more, over the binary64 numbers
    of IEEE 754 (the primitive floats, whose operations round to nearest
    even as those of a Python [float] do).  The results of [math.exp],
    [math.log] and [norm.cdf] depend on the C library and on scipy in their
    last bits, so these three functions are a parameter, [libm]. *)

Module Binary64.

Import PrimFloat.
Local Open Scope float_scope.
#[local] Set Warnings "-inexact-float".

Inductive exn : Type :=
| ValueError (msg : string)
| ZeroDivisionError (msg : string)
| OverflowError (msg : string).

Inductive result (A : Type) : Type :=
| Ok (a : A)
| Raise (e : exn).

Arguments Ok {A} a.
Arguments Raise {A} e.

Definition bind {A B : Type} (c : result A) (k : A -> result B) : result B :=
  match c with
  | Ok a => k a
  | Raise e => Raise e
  end.

Declare Scope binary64_scope.
Notation "x <- c ;; k" := (bind c (fun x => k))
  (at level 61, c at next level, right associativity) : binary64_scope.
Local Open Scope binary64_scope.

(** The exponential and the logarithm of the C library and the normal
    distribution function of scipy. *)
Record libm : Type := {
  libm_exp : float -> float;
  libm_log : float -> float;
  scipy_norm_cdf : float -> float
}.

(** Python's [max(a, b)] keeps the first argument unless [b > a]. *)
Definition pymax (a b : float) : float := if a <? b then b else a.

Section Pricer.

Variable L : libm.

(** [math.exp] raises OverflowError when the result overflows. *)
Definition math_exp (x : float) : result float :=
  let y := libm_exp L x in
  if is_infinity y && negb (is_infinity x)
  then Raise (OverflowError "math range error")
  else Ok y.

Definition math_log (x : float) : result float :=
  if x <=? 0 then Raise (ValueError "math domain error")
  else Ok (libm_log L x).

Definition math_sqrt (x : float) : result float :=
  if x <? 0 then Raise (ValueError "math domain error") else Ok (sqrt x).

Definition fdiv (x y : float) : result float :=
  if y =? 0 then Raise (ZeroDivisionError "float division by zero")
  else Ok (x / y).

Definition norm_cdf (x : float) : float := scipy_norm_cdf L x.

Definition _validate_inputs (S K T sigma : float) : result unit :=
  if S <=? 0 then Raise (ValueError "Spot S must be > 0.")
  else if K <=? 0 then Raise (ValueError "Strike K must be > 0.")
  else if T <? 0 then Raise (ValueError "Time to maturity T must be >= 0.")
  else if sigma <? 0 then Raise (ValueError "Volatility sigma must be >= 0.")
  else Ok tt.

Definition black_scholes_price (option_type : string)
    (S K T r q sigma : float) : result float :=
  let option_type := strip (lower option_type) in
  if negb (str_in option_type ["call"; "put"])
  then Raise (ValueError "option_type must be 'call' or 'put'.")
  else
    _ <- _validate_inputs S K T sigma ;;
    if T =? 0 then
      if String.eqb option_type "call"
      then Ok (pymax (S - K) 0)
      else Ok (pymax (K - S) 0)
    else if sigma =? 0 then
      e <- math_exp ((r - q) * T) ;;
      let forward_T := S * e in
      disc <- math_exp (- r * T) ;;
      if String.eqb option_type "call"
      then Ok (disc * pymax (forward_T - K) 0)
      else Ok (disc * pymax (K - forward_T) 0)
    else
      sqrtT <- math_sqrt T ;;
      m <- fdiv S K ;;
      l <- math_log m ;;
      d1 <- fdiv (l + (r - q + 0.5 * sigma * sigma) * T) (sigma * sqrtT) ;;
      let d2 := d1 - sigma * sqrtT in
      disc_q <- math_exp (- q * T) ;;
      disc_r <- math_exp (- r * T) ;;
      if String.eqb option_type "call"
      then Ok (S * disc_q * norm_cdf d1 - K * disc_r * norm_cdf d2)
      else Ok (K * disc_r * norm_cdf (- d2) - S * disc_q * norm_cdf (- d1)).

Definition put_call_parity_check
    (S K T r q call_price put_price tol : float) : result bool :=
  let lhs := call_price - put_price in
  disc_q <- math_exp (- q * T) ;;
  disc_r <- math_exp (- r * T) ;;
  let rhs := S * disc_q - K * disc_r in
  Ok (abs (lhs - rhs) <=? tol).

End Pricer.

(** [y] is [c] or one of the two binary64 numbers on either side of it. *)
Definition within_two_ulps (y c : float) : Prop :=
  In y [next_down (next_down c); next_down c; c; next_up c;
        next_up (next_up c)].

(** What every exponential that is accurate to two units in the last
    place returns at the arguments -0.0, 0.05 and -0.05: 1 exactly, as the
    C standard requires at zero, and a neighbour of the binary64 numbers
    nearest to exp(0.05) = 1.0512710963760240... and to
    exp(-0.05) = 0.95122942450071400... *)
Definition exp_accurate (L : libm) : Prop :=
  libm_exp L (- 0) = 1
  /\ within_two_ulps (libm_exp L 0.05) 0x1.0d201a422a433p+0
  /\ within_two_ulps (libm_exp L (- 0.05)) 0x1.e7078b0a726a6p-1.

(** Section 8, put-call parity at one input: the two prices pass the
    parity check of the code at its default tolerance. *)
Definition parity_within (L : libm) (S K T r q sigma : float) : Prop :=
  exists c p,
    black_scholes_price L "call" S K T r q sigma = Ok c
    /\ black_scholes_price L "put" S K T r q sigma = Ok p
    /\ put_call_parity_check L S K T r q c p 1e-6 = Ok true.

End Binary64.

(** * Theorems *)

(** ** Comparisons, [max] and [min] *)

Lemma flt_true (x y : R) : x < y -> flt x y = true.
Proof. intros H. unfold flt. destruct (Rlt_dec x y); [reflexivity | contradiction]. Qed.

Lemma flt_false (x y : R) : ~ x < y -> flt x y = false.
Proof. intros H. unfold flt. destruct (Rlt_dec x y); [contradiction | reflexivity]. Qed.

Lemma fle_true (x y : R) : x <= y -> fle x y = true.
Proof. intros H. unfold fle. destruct (Rle_dec x y); [reflexivity | contradiction]. Qed.

Lemma fle_false (x y : R) : ~ x <= y -> fle x y = false.
Proof. intros H. unfold fle. destruct (Rle_dec x y); [contradiction | reflexivity]. Qed.

Lemma feq_true (x y : R) : x = y -> feq x y = true.
Proof. intros H. unfold feq. destruct (Req_dec_T x y); [reflexivity | contradiction]. Qed.

Lemma feq_false (x y : R) : x <> y -> feq x y = false.
Proof. intros H. unfold feq. destruct (Req_dec_T x y); [contradiction | reflexivity]. Qed.

Lemma flt_iff (x y : R) : flt x y = true <-> x < y.
Proof. unfold flt. destruct (Rlt_dec x y); split; intros; (assumption || reflexivity || discriminate || contradiction). Qed.

Lemma fle_iff (x y : R) : fle x y = true <-> x <= y.
Proof. unfold fle. destruct (Rle_dec x y); split; intros; (assumption || reflexivity || discriminate || contradiction). Qed.

(** Splits on every float comparison of the goal and lets [lra] close the
    branches that the arithmetic excludes. *)
Ltac float_cases :=
  unfold pymax, pymin, flt, fle, feq, Rmax, Rmin in *;
  repeat match goal with
    | |- context [Rlt_dec ?a ?b] => destruct (Rlt_dec a b)
    | |- context [Rle_dec ?a ?b] => destruct (Rle_dec a b)
    | |- context [Req_dec_T ?a ?b] => destruct (Req_dec_T a b)
    end;
  simpl; try reflexivity; try lra.

Lemma pymax_Rmax (a b : R) : pymax a b = Rmax a b.
Proof. float_cases. Qed.

Lemma pymin_Rmin (a b : R) : pymin a b = Rmin a b.
Proof. float_cases. Qed.

(** ** Option sides *)

Lemma denotes_normal (sd : OptionSide) : denotes (side_name sd) sd.
Proof. destruct sd; reflexivity. Qed.

Lemma denotes_str_in (s : string) (sd : OptionSide) :
  denotes s sd -> str_in (strip (lower s)) ["call"; "put"] = true.
Proof. unfold denotes. intros ->. destruct sd; reflexivity. Qed.

Lemma str_in_denotes (s : string) :
  str_in (strip (lower s)) ["call"; "put"] = true ->
  exists sd, denotes s sd.
Proof.
  unfold str_in, denotes. simpl. intros H.
  apply orb_true_iff in H. destruct H as [H | H].
  - apply String.eqb_eq in H. exists Call. exact H.
  - rewrite orb_false_r in H. apply String.eqb_eq in H. exists Put. exact H.
Qed.

(** ** The pricer on admissible inputs *)

Lemma _validate_inputs_ok (S K T sigma : R) :
  0 < S -> 0 < K -> 0 <= T -> 0 <= sigma ->
  _validate_inputs S K T sigma = Ok tt.
Proof. intros. unfold _validate_inputs. float_cases. Qed.

Lemma sqrt_maturity_pos (T : R) : 0 <= T -> T <> 0 -> 0 < sqrt T.
Proof. intros H0 H1. apply sqrt_lt_R0. lra. Qed.

Lemma d1_computed (S K T r q sigma : R) :
  0 < S -> 0 < K -> 0 <= T -> T <> 0 -> 0 <= sigma -> sigma <> 0 ->
  (sqrtT <- math_sqrt T ;;
   m <- fdiv S K ;;
   l <- math_log m ;;
   fdiv (l + (r - q + 0.5 * sigma * sigma) * T) (sigma * sqrtT))
  = Ok (d1 S K T r q sigma).
Proof.
  intros HS HK HT HT0 Hs Hs0.
  pose proof (sqrt_maturity_pos T HT HT0) as Hq.
  assert (HSK : 0 < S / K) by (apply Rdiv_lt_0_compat; assumption).
  assert (Hden : sigma * sqrt T <> 0) by nra.
  unfold math_sqrt, fdiv, math_log.
  rewrite (fle_true 0 T HT). simpl.
  rewrite (feq_false K 0) by lra. simpl.
  rewrite (flt_true 0 (S / K) HSK). simpl.
  rewrite (feq_false _ 0 Hden). reflexivity.
Qed.

Lemma black_scholes_price_refines (s : string) (sd : OptionSide)
    (S K T r q sigma : R) :
  denotes s sd -> 0 < S -> 0 < K -> 0 <= T -> 0 <= sigma ->
  black_scholes_price s S K T r q sigma = Ok (price sd S K T r q sigma).
Proof.
  intros Hd HS HK HT Hs.
  unfold black_scholes_price, price.
  rewrite (denotes_str_in s sd Hd). simpl negb. cbv iota.
  rewrite (_validate_inputs_ok S K T sigma HS HK HT Hs). simpl bind.
  red in Hd. rewrite Hd.
  unfold feq at 1 3. destruct (Req_dec_T T 0) as [HT0 | HT0].
  - rewrite !pymax_Rmax. destruct sd; reflexivity.
  - unfold feq at 1 2. destruct (Req_dec_T sigma 0) as [Hs0 | Hs0].
    + rewrite !pymax_Rmax. unfold math_exp. destruct sd; reflexivity.
    + pose proof (d1_computed S K T r q sigma HS HK HT HT0 Hs Hs0) as E.
      unfold math_sqrt, fdiv, math_log in *.
      rewrite (fle_true 0 T HT) in *. simpl in *.
      rewrite (feq_false K 0) in * by lra. simpl in *.
      assert (HSK : 0 < S / K) by (apply Rdiv_lt_0_compat; assumption).
      rewrite (flt_true 0 (S / K) HSK) in *. simpl in *.
      pose proof (sqrt_maturity_pos T HT HT0) as Hq.
      rewrite (feq_false (sigma * sqrt T) 0) in * by nra. simpl in *.
      unfold d2, d1, math_exp. destruct sd; reflexivity.
Qed.

Lemma black_scholes_vega_refines (S K T r q sigma : R) :
  0 < S -> 0 < K -> 0 <= T -> 0 <= sigma ->
  black_scholes_vega S K T r q sigma = Ok (vega S K T r q sigma).
Proof.
  intros HS HK HT Hs.
  unfold black_scholes_vega, vega.
  rewrite (_validate_inputs_ok S K T sigma HS HK HT Hs). simpl bind.
  destruct (feq T 0 || feq sigma 0) eqn:E; [reflexivity |].
  apply orb_false_iff in E. destruct E as [E1 E2].
  assert (HT0 : T <> 0) by (intros ->; rewrite feq_true in E1; [discriminate | reflexivity]).
  assert (Hs0 : sigma <> 0) by (intros ->; rewrite feq_true in E2; [discriminate | reflexivity]).
  pose proof (sqrt_maturity_pos T HT HT0) as Hq.
  assert (HSK : 0 < S / K) by (apply Rdiv_lt_0_compat; assumption).
  unfold math_sqrt, fdiv, math_log.
  rewrite (fle_true 0 T HT). simpl.
  rewrite (feq_false K 0) by lra. simpl.
  rewrite (flt_true 0 (S / K) HSK). simpl.
  rewrite (feq_false (sigma * sqrt T) 0) by nra. simpl.
  unfold d1, math_exp. reflexivity.
Qed.

Lemma _no_arbitrage_bounds_refines (sd : OptionSide) (S K T r q : R) :
  _no_arbitrage_bounds (side_name sd) S K T r q = bounds sd S K T r q.
Proof.
  unfold _no_arbitrage_bounds, bounds, math_exp.
  destruct sd; simpl; rewrite pymax_Rmax; reflexivity.
Qed.

(** ** The degenerate branches of the pricer *)

(** C7. At expiry ([T = 0]) [black_scholes_price] returns the undiscounted
    intrinsic value, [max(S - K, 0)] for a call and [max(K - S, 0)] for a
    put; the call with S = 100, K = 90, T = 0, r = 0.05, q = 0, sigma = 0.2
    is worth 10 and the put 0. *)
Theorem expiry_boundary (s : string) (sd : OptionSide) (S K r q sigma : R) :
  denotes s sd -> 0 < S -> 0 < K -> 0 <= sigma ->
  black_scholes_price s S K 0 r q sigma
  = Ok (match sd with
        | Call => Rmax (S - K) 0
        | Put => Rmax (K - S) 0
        end)
  /\ black_scholes_price "call" 100 90 0 0.05 0 0.2 = Ok 10
  /\ black_scholes_price "put" 100 90 0 0.05 0 0.2 = Ok 0.
Proof.
  intros Hd HS HK Hs.
  assert (E : forall s' sd' S' K' r' q' sigma',
             denotes s' sd' -> 0 < S' -> 0 < K' -> 0 <= sigma' ->
             black_scholes_price s' S' K' 0 r' q' sigma'
             = Ok (match sd' with
                   | Call => Rmax (S' - K') 0
                   | Put => Rmax (K' - S') 0
                   end)).
  { intros s' sd' S' K' r' q' sigma' Hd' HS' HK' Hs'.
    rewrite (black_scholes_price_refines s' sd') by (assumption || lra).
    unfold price. rewrite feq_true by reflexivity. reflexivity. }
  split; [apply E; assumption |].
  split.
  - rewrite (E "call" Call) by (reflexivity || lra).
    f_equal. unfold Rmax. destruct (Rle_dec (100 - 90) 0); lra.
  - rewrite (E "put" Put) by (reflexivity || lra).
    f_equal. unfold Rmax. destruct (Rle_dec (90 - 100) 0); lra.
Qed.

Lemma expiry_boundary_witness :
  black_scholes_price " Put " 100 90 0 0.05 0 0.2 = Ok (Rmax (90 - 100) 0)
  /\ black_scholes_price "call" 100 90 0 0.05 0 0.2 = Ok 10
  /\ black_scholes_price "put" 100 90 0 0.05 0 0.2 = Ok 0.
Proof.
  apply (expiry_boundary " Put " Put 100 90 0.05 0 0.2);
    [reflexivity | lra | lra | lra].
Defined.

(** C8. With [T > 0] and [sigma = 0] [black_scholes_price] returns the
    discounted payoff at the deterministic forward
    [forward = S * exp((r - q) * T)]: [exp(-r * T) * max(forward - K, 0)]
    for a call and [exp(-r * T) * max(K - forward, 0)] for a put. *)
Theorem zero_volatility_boundary (s : string) (sd : OptionSide)
    (S K T r q : R) :
  denotes s sd -> 0 < S -> 0 < K -> 0 < T ->
  let forward := S * exp ((r - q) * T) in
  black_scholes_price s S K T r q 0
  = Ok (match sd with
        | Call => exp (- r * T) * Rmax (forward - K) 0
        | Put => exp (- r * T) * Rmax (K - forward) 0
        end).
Proof.
  intros Hd HS HK HT forward.
  rewrite (black_scholes_price_refines s sd) by (assumption || lra).
  unfold price. rewrite (feq_false T 0) by lra.
  rewrite feq_true by reflexivity. destruct sd; reflexivity.
Qed.

Lemma zero_volatility_boundary_witness :
  black_scholes_price "call" 100 100 1 0.05 0 0
  = Ok (exp (- (0.05) * 1) * Rmax (100 * exp ((0.05 - 0) * 1) - 100) 0).
Proof.
  refine (zero_volatility_boundary "call" Call 100 100 1 0.05 0 _ _ _ _);
    [reflexivity | lra | lra | lra].
Defined.

(** ** Structural errors *)

(** C9. [black_scholes_price] raises a [ValueError] for every input with
    [S <= 0], [K <= 0], [T < 0], [sigma < 0] or a side whose normal form is
    neither call nor put, and [black_scholes_vega] raises one for
    [S <= 0], [K <= 0], [T < 0] or [sigma < 0]: the result is the raised
    exception, no number and no not-a-number. *)
Theorem structural_errors (s : string) (S K T r q sigma : R) :
  S <= 0 \/ K <= 0 \/ T < 0 \/ sigma < 0
  \/ str_in (strip (lower s)) ["call"; "put"] = false ->
  (exists msg, black_scholes_price s S K T r q sigma = Raise (ValueError msg))
  /\ (S <= 0 \/ K <= 0 \/ T < 0 \/ sigma < 0 ->
      exists msg, black_scholes_vega S K T r q sigma = Raise (ValueError msg)).
Proof.
  intros H.
  assert (V : S <= 0 \/ K <= 0 \/ T < 0 \/ sigma < 0 ->
              exists msg, _validate_inputs S K T sigma = Raise (ValueError msg)).
  { intros HV. unfold _validate_inputs.
    destruct (fle S 0) eqn:E1; [eexists; reflexivity |].
    destruct (fle K 0) eqn:E2; [eexists; reflexivity |].
    destruct (flt T 0) eqn:E3; [eexists; reflexivity |].
    destruct (flt sigma 0) eqn:E4; [eexists; reflexivity |].
    exfalso. destruct HV as [HV | [HV | [HV | HV]]].
    - rewrite fle_true in E1 by assumption. discriminate.
    - rewrite fle_true in E2 by assumption. discriminate.
    - rewrite flt_true in E3 by assumption. discriminate.
    - rewrite flt_true in E4 by assumption. discriminate. }
  split.
  - unfold black_scholes_price.
    destruct (str_in (strip (lower s)) ["call"; "put"]) eqn:Es; simpl negb;
      cbv iota; [| eexists; reflexivity].
    assert (HV : S <= 0 \/ K <= 0 \/ T < 0 \/ sigma < 0).
    { destruct H as [H | [H | [H | [H | H]]]]; auto. discriminate. }
    destruct (V HV) as [msg ->]. exists msg. reflexivity.
  - intros HV. unfold black_scholes_vega.
    destruct (V HV) as [msg ->]. exists msg. reflexivity.
Qed.

Lemma structural_errors_witness :
  (exists msg,
     black_scholes_price "call" (-1) 100 1 0.05 0 0.2 = Raise (ValueError msg))
  /\ (-1 <= 0 \/ 100 <= 0 \/ 1 < 0 \/ 0.2 < 0 ->
      exists msg,
        black_scholes_vega (-1) 100 1 0.05 0 0.2 = Raise (ValueError msg)).
Proof.
  apply (structural_errors "call" (-1) 100 1 0.05 0 0.2). left. lra.
Defined.

(** ** Option-side normalization *)

(** Splits on the tests of a monadic computation until every branch is a
    plain result. *)
Ltac branch_cases :=
  repeat (simpl;
          match goal with
          | |- context [if ?b then _ else _] => destruct b
          end);
  simpl.

Lemma _validate_inputs_side_free (S K T sigma : R) :
  _validate_inputs S K T sigma <> Raise option_type_error.
Proof.
  unfold _validate_inputs, option_type_error. branch_cases; discriminate.
Qed.

Lemma black_scholes_price_side_free (s : string) (sd : OptionSide)
    (S K T r q sigma : R) :
  denotes s sd ->
  black_scholes_price s S K T r q sigma <> Raise option_type_error.
Proof.
  intros Hd. unfold black_scholes_price.
  rewrite (denotes_str_in s sd Hd). simpl negb. cbv iota.
  pose proof (_validate_inputs_side_free S K T sigma) as HV.
  destruct (_validate_inputs S K T sigma) as [[] | e];
    [| simpl; congruence].
  unfold math_sqrt, fdiv, math_log, option_type_error.
  branch_cases; discriminate.
Qed.

Lemma black_scholes_vega_side_free (S K T r q sigma : R) :
  black_scholes_vega S K T r q sigma <> Raise option_type_error.
Proof.
  unfold black_scholes_vega.
  pose proof (_validate_inputs_side_free S K T sigma) as HV.
  destruct (_validate_inputs S K T sigma) as [[] | e];
    [| simpl; congruence].
  unfold math_sqrt, fdiv, math_log, option_type_error.
  branch_cases; discriminate.
Qed.

Lemma newton_loop_side_free (sd : OptionSide)
    (market_price S K T r q tol vega_floor sigma_min sigma_max : R)
    (n : nat) :
  forall sigma,
    newton_loop (side_name sd) market_price S K T r q tol vega_floor
      sigma_min sigma_max n sigma <> Raise option_type_error.
Proof.
  induction n as [| n IH]; intros sigma; simpl; [discriminate |].
  pose proof (black_scholes_price_side_free (side_name sd) sd S K T r q sigma
                (denotes_normal sd)) as HP.
  destruct (black_scholes_price (side_name sd) S K T r q sigma) as [p | e];
    [| simpl; congruence].
  simpl. destruct (flt (Rabs (p - market_price)) tol); [discriminate |].
  pose proof (black_scholes_vega_side_free S K T r q sigma) as HV.
  destruct (black_scholes_vega S K T r q sigma) as [v | e];
    [| simpl; congruence].
  simpl. destruct (flt v vega_floor); [discriminate |].
  unfold fdiv. destruct (feq v 0); simpl; [discriminate |].
  destruct (flt _ sigma_min || flt sigma_max _); [discriminate | apply IH].
Qed.

Lemma bisection_loop_side_free (sd : OptionSide)
    (market_price S K T r q tol : R) (n : nat) :
  forall low high f_low f_high,
    bisection_loop (side_name sd) market_price S K T r q tol n
      low high f_low f_high <> Raise option_type_error.
Proof.
  induction n as [| n IH]; intros low high f_low f_high; simpl;
    [discriminate |].
  pose proof (black_scholes_price_side_free (side_name sd) sd S K T r q
                (0.5 * (low + high)) (denotes_normal sd)) as HP.
  destruct (black_scholes_price (side_name sd) S K T r q (0.5 * (low + high)))
    as [p | e]; [| simpl; congruence].
  simpl. destruct (_ || _); [discriminate |].
  destruct (fle _ 0); apply IH.
Qed.

(** C10. The three entry points that take an option side lowercase and
    strip it before they check it: each raises the option-type
    [ValueError] exactly when the normal form is neither call nor put, a
    side that is accepted is priced as its normal form is, and CALL and
    Put between blanks are accepted. *)
Theorem option_side_normalization (s : string)
    (market_price S K T r q sigma initial_sigma tol : R) (max_iter : Z)
    (vega_floor sigma_min sigma_max sigma_low sigma_high : R)
    (enforce_bounds : bool) :
  let invalid := str_in (strip (lower s)) ["call"; "put"] = false in
  (black_scholes_price s S K T r q sigma = Raise option_type_error
   <-> invalid)
  /\ (implied_vol_newton s market_price S K T r q initial_sigma tol max_iter
        vega_floor sigma_min sigma_max enforce_bounds
      = Raise option_type_error <-> invalid)
  /\ (implied_vol_bisection s market_price S K T r q tol max_iter
        sigma_low sigma_high enforce_bounds
      = Raise option_type_error <-> invalid)
  /\ (~ invalid ->
      black_scholes_price s S K T r q sigma
      = black_scholes_price (strip (lower s)) S K T r q sigma)
  /\ strip (lower "CALL") = "call"
  /\ strip (lower " Put ") = "put".
Proof.
  intros invalid. unfold invalid.
  destruct (str_in (strip (lower s)) ["call"; "put"]) eqn:Es.
  - destruct (str_in_denotes s Es) as [sd Hd]. pose proof Hd as Hn.
    red in Hn.
    repeat split; try discriminate; try reflexivity.
    + intros H. exfalso.
      exact (black_scholes_price_side_free s sd S K T r q sigma Hd H).
    + intros H. exfalso. revert H.
      unfold implied_vol_newton. rewrite Es, Hn. simpl negb. cbv iota.
      destruct (flt market_price 0); [discriminate |].
      destruct (fle T 0); [discriminate |].
      match goal with
      | |- context [if ?b then Ok NaN else _] => destruct b
      end; [discriminate |].
      apply newton_loop_side_free.
    + intros H. exfalso. revert H.
      unfold implied_vol_bisection. rewrite Es, Hn. simpl negb. cbv iota.
      destruct (flt market_price 0 || fle T 0); [discriminate |].
      match goal with
      | |- context [if ?b then Ok NaN else _] => destruct b
      end; [discriminate |].
      pose proof (black_scholes_price_side_free (side_name sd) sd S K T r q
                    sigma_low (denotes_normal sd)) as HL.
      destruct (black_scholes_price (side_name sd) S K T r q sigma_low)
        as [pl | e]; [| simpl; congruence].
      pose proof (black_scholes_price_side_free (side_name sd) sd S K T r q
                    sigma_high (denotes_normal sd)) as HH.
      destruct (black_scholes_price (side_name sd) S K T r q sigma_high)
        as [ph | e]; [| simpl; congruence].
      simpl. destruct (flt 0 _); [discriminate |].
      apply bisection_loop_side_free.
    + intros _. unfold black_scholes_price. rewrite Hn.
      destruct sd; reflexivity.
  - repeat split; try reflexivity; try (intros; congruence).
    + unfold black_scholes_price. rewrite Es. reflexivity.
    + unfold implied_vol_newton. rewrite Es. reflexivity.
    + unfold implied_vol_bisection. rewrite Es. reflexivity.
Qed.

Lemma option_side_normalization_witness :
  black_scholes_price "strangle" 100 90 1 0.05 0 0.2
  = Raise option_type_error.
Proof.
  apply (proj1 (option_side_normalization "strangle" 10 100 90 1 0.05 0 0.2
                  0.2 1e-7 100 1e-10 1e-6 5 1e-6 5 true)).
  reflexivity.
Defined.

(** ** Immediate rejection *)

(** C4. [implied_vol_newton] and [implied_vol_bisection] return the
    not-a-number sentinel when [market_price < 0], when [T <= 0], or, with
    bounds enforcement on, when [market_price] is more than 1e-12 below the
    lower or above the upper bound of [_no_arbitrage_bounds].  They do so
    for every iteration cap and for every spot and strike, also those the
    pricer would refuse: no iteration is entered. *)
Theorem immediate_rejection (s : string) (sd : OptionSide)
    (market_price S K T r q initial_sigma tol : R) (max_iter : Z)
    (vega_floor sigma_min sigma_max : R)
    (tol' : R) (max_iter' : Z) (sigma_low sigma_high : R)
    (enforce_bounds : bool) :
  denotes s sd ->
  market_price < 0 \/ T <= 0
  \/ (enforce_bounds = true
      /\ (market_price
          < fst (_no_arbitrage_bounds (strip (lower s)) S K T r q) - 1e-12
          \/ snd (_no_arbitrage_bounds (strip (lower s)) S K T r q) + 1e-12
             < market_price)) ->
  implied_vol_newton s market_price S K T r q initial_sigma tol max_iter
    vega_floor sigma_min sigma_max enforce_bounds = Ok NaN
  /\ implied_vol_bisection s market_price S K T r q tol' max_iter'
       sigma_low sigma_high enforce_bounds = Ok NaN.
Proof.
  intros Hd Hrej.
  unfold implied_vol_newton, implied_vol_bisection.
  rewrite (denotes_str_in s sd Hd). simpl negb. cbv iota.
  destruct (_no_arbitrage_bounds (strip (lower s)) S K T r q) as [lb ub].
  simpl fst in Hrej. simpl snd in Hrej.
  destruct (flt market_price 0) eqn:E1; [split; reflexivity |].
  destruct (fle T 0) eqn:E2; [split; reflexivity |].
  simpl orb. cbv iota.
  destruct Hrej as [H | [H | [He H]]].
  - rewrite flt_true in E1 by assumption. discriminate.
  - rewrite fle_true in E2 by assumption. discriminate.
  - subst enforce_bounds.
    assert (Ho : outside_bounds lb ub market_price = true).
    { unfold outside_bounds. destruct H as [H | H].
      - rewrite (fle_false (lb - 1e-12) market_price) by lra. reflexivity.
      - rewrite (fle_false market_price (ub + 1e-12)) by lra.
        rewrite andb_false_r. reflexivity. }
    rewrite Ho. split; reflexivity.
Qed.

Lemma immediate_rejection_witness :
  implied_vol_newton "Call" (-1) (-100) 0 1 0.05 0 0.2 1e-7 100
    1e-10 1e-6 5 false = Ok NaN
  /\ implied_vol_bisection "Call" (-1) (-100) 0 1 0.05 0 1e-7 200
       1e-6 5 false = Ok NaN.
Proof.
  apply (immediate_rejection "Call" Call (-1) (-100) 0 1 0.05 0 0.2 1e-7 100
           1e-10 1e-6 5 1e-7 200 1e-6 5 false);
    [reflexivity | left; lra].
Defined.

(** ** The dispatch of [implied_vol] *)



(** ** The Newton-Raphson iteration *)

Lemma newton_iterates_deterministic (f v' : R -> R)
    (tol vega_floor sigma_min sigma_max : R) (n : nat) (sigma : R)
    (v1 v2 : pyfloat) :
  newton_iterates f v' tol vega_floor sigma_min sigma_max n sigma v1 ->
  newton_iterates f v' tol vega_floor sigma_min sigma_max n sigma v2 ->
  v1 = v2.
Proof.
  intros H1. revert v2.
  induction H1 as [sigma | n sigma Hc | n sigma Hc Hv | n sigma Hc Hv Hd
                  | n sigma v Hc Hv Hd Hrec IH];
    intros v2 H2; inversion H2; subst;
    try reflexivity; try contradiction; try lra.
  apply IH. assumption.
Qed.

Lemma newton_loop_refines (sd : OptionSide)
    (market_price S K T r q tol vega_floor sigma_min sigma_max : R) :
  0 < S -> 0 < K -> 0 < T -> 0 < vega_floor -> 0 <= sigma_min ->
  forall (n : nat) (sigma : R),
    0 <= sigma ->
    exists v,
      newton_loop (side_name sd) market_price S K T r q tol vega_floor
        sigma_min sigma_max n sigma = Ok v
      /\ newton_iterates (fun x => price sd S K T r q x - market_price)
           (vega S K T r q) tol vega_floor sigma_min sigma_max n sigma v.
Proof.
  intros HS HK HT Hfloor Hmin.
  induction n as [| n IH]; intros sigma Hs.
  - exists NaN. split; [reflexivity | constructor].
  - simpl.
    rewrite (black_scholes_price_refines (side_name sd) sd)
      by (try apply denotes_normal; assumption || lra).
    simpl bind.
    destruct (Rlt_dec (Rabs (price sd S K T r q sigma - market_price)) tol)
      as [Hc | Hc].
    + rewrite (flt_true _ _ Hc). exists (Num sigma).
      split; [reflexivity | apply newton_converged; exact Hc].
    + rewrite (flt_false _ _ Hc).
      rewrite black_scholes_vega_refines by (assumption || lra).
      simpl bind.
      destruct (Rlt_dec (vega S K T r q sigma) vega_floor) as [Hv | Hv].
      * rewrite (flt_true _ _ Hv). exists NaN.
        split; [reflexivity | apply newton_unstable; assumption].
      * rewrite (flt_false _ _ Hv).
        unfold fdiv. rewrite (feq_false (vega S K T r q sigma) 0) by lra.
        simpl bind.
        set (sigma' := sigma - (price sd S K T r q sigma - market_price)
                               / vega S K T r q sigma).
        destruct (Rlt_dec sigma' sigma_min) as [Hlo | Hlo].
        { rewrite (flt_true _ _ Hlo). simpl orb. cbv iota. exists NaN.
          split; [reflexivity |].
          apply newton_diverged; [assumption | assumption | left; exact Hlo]. }
        rewrite (flt_false _ _ Hlo). simpl orb.
        destruct (Rlt_dec sigma_max sigma') as [Hhi | Hhi].
        { rewrite (flt_true _ _ Hhi). exists NaN.
          split; [reflexivity |].
          apply newton_diverged; [assumption | assumption | right; exact Hhi]. }
        rewrite (flt_false _ _ Hhi).
        destruct (IH sigma') as [v [Hrun Hit]]; [lra |].
        exists v. split; [exact Hrun |].
        apply newton_updated; [assumption | assumption | | exact Hit].
        fold sigma'. lra.
Qed.

Lemma rejection_guard_passes (sd : OptionSide)
    (market_price S K T r q : R) (enforce_bounds : bool) :
  ~ rejected sd market_price S K T r q enforce_bounds ->
  flt market_price 0 = false
  /\ fle T 0 = false
  /\ (if enforce_bounds
      then let (lb, ub) := _no_arbitrage_bounds (side_name sd) S K T r q in
           outside_bounds lb ub market_price
      else false) = false.
Proof.
  intros Hrej. unfold rejected in Hrej.
  split; [apply flt_false; tauto |].
  split; [apply fle_false; tauto |].
  destruct enforce_bounds; [| reflexivity].
  rewrite _no_arbitrage_bounds_refines.
  destruct (bounds sd S K T r q) as [lb ub]. simpl fst in Hrej.
  simpl snd in Hrej. unfold outside_bounds.
  rewrite (fle_true (lb - 1e-12) market_price).
  - rewrite (fle_true market_price (ub + 1e-12)); [reflexivity |].
    destruct (Rle_dec market_price (ub + 1e-12)); [assumption |].
    exfalso. apply Hrej. right. right. split; [reflexivity | right; lra].
  - destruct (Rle_dec (lb - 1e-12) market_price); [assumption |].
    exfalso. apply Hrej. right. right. split; [reflexivity | left; lra].
Qed.

(** C3. Once the immediate rejection checks have passed,
    [implied_vol_newton] starts from the initial guess clamped into
    [[sigma_min, sigma_max]] and runs the iteration of the specification:
    with diff = price(sigma) - market_price, an iteration returns sigma if
    |diff| < tol, else NaN if vega(sigma) < vega_floor, else moves to
    sigma - diff / vega and returns NaN at once, without clamping, if that
    is below sigma_min or above sigma_max; [max_iter] iterations without
    convergence return NaN.  The result is the only one the iteration
    allows. *)
Theorem newton_iteration_semantics (s : string) (sd : OptionSide)
    (market_price S K T r q initial_sigma tol : R) (max_iter : Z)
    (vega_floor sigma_min sigma_max : R) (enforce_bounds : bool) :
  denotes s sd -> 0 < S -> 0 < K ->
  ~ rejected sd market_price S K T r q enforce_bounds ->
  0 < vega_floor -> 0 <= sigma_min -> 0 <= sigma_max ->
  let f := fun x => price sd S K T r q x - market_price in
  let start := Rmin (Rmax initial_sigma sigma_min) sigma_max in
  exists v,
    implied_vol_newton s market_price S K T r q initial_sigma tol max_iter
      vega_floor sigma_min sigma_max enforce_bounds = Ok v
    /\ newton_iterates f (vega S K T r q) tol vega_floor sigma_min sigma_max
         (Z.to_nat max_iter) start v
    /\ forall w,
         newton_iterates f (vega S K T r q) tol vega_floor sigma_min
           sigma_max (Z.to_nat max_iter) start w -> w = v.
Proof.
  intros Hd HS HK Hrej Hfloor Hmin Hmax f start.
  assert (HT : 0 < T) by (unfold rejected in Hrej; lra).
  destruct (rejection_guard_passes sd market_price S K T r q enforce_bounds
              Hrej) as [G1 [G2 G3]].
  assert (Hstart : 0 <= start).
  { unfold start, Rmin, Rmax.
    destruct (Rle_dec initial_sigma sigma_min);
      match goal with
      | |- context [Rle_dec ?a ?b] => destruct (Rle_dec a b)
      end; lra. }
  destruct (newton_loop_refines sd market_price S K T r q tol vega_floor
              sigma_min sigma_max HS HK HT Hfloor Hmin (Z.to_nat max_iter)
              start Hstart) as [v [Hrun Hit]].
  exists v. split; [| split].
  - unfold implied_vol_newton.
    rewrite (denotes_str_in s sd Hd). simpl negb. cbv iota.
    red in Hd. rewrite Hd, G1, G2, G3.
    rewrite pymax_Rmax, pymin_Rmin. exact Hrun.
  - exact Hit.
  - intros w Hw.
    exact (newton_iterates_deterministic _ _ _ _ _ _ _ _ _ _ Hw Hit).
Qed.

Lemma newton_iteration_semantics_witness :
  exists v,
    implied_vol_newton "call" 10 100 100 1 0.05 0 0.2 1e-7 100 1e-10 1e-6 5
      false = Ok v
    /\ newton_iterates (fun x => price Call 100 100 1 0.05 0 x - 10)
         (vega 100 100 1 0.05 0) 1e-7 1e-10 1e-6 5 (Z.to_nat 100)
         (Rmin (Rmax 0.2 1e-6) 5) v
    /\ forall w,
         newton_iterates (fun x => price Call 100 100 1 0.05 0 x - 10)
           (vega 100 100 1 0.05 0) 1e-7 1e-10 1e-6 5 (Z.to_nat 100)
           (Rmin (Rmax 0.2 1e-6) 5) w -> w = v.
Proof.
  refine (newton_iteration_semantics "call" Call 10 100 100 1 0.05 0 0.2
            1e-7 100 1e-10 1e-6 5 false _ _ _ _ _ _ _);
    [reflexivity | lra | lra | | lra | lra | lra].
  unfold rejected. intros [H | [H | [H _]]]; [lra | lra | discriminate].
Defined.

(** ** The bisection iteration *)

Lemma bisection_iterates_deterministic (f : R -> R) (tol : R) (n : nat)
    (low high : R) (v1 v2 : pyfloat) :
  bisection_iterates f tol n low high v1 ->
  bisection_iterates f tol n low high v2 ->
  v1 = v2.
Proof.
  intros H1. revert v2.
  induction H1 as [low high | n low high Hc | n low high v Hc Hs Hrec IH
                  | n low high v Hc Hs Hrec IH];
    intros v2 H2; inversion H2; subst;
    try reflexivity; try contradiction; try lra;
    apply IH; assumption.
Qed.

Lemma bisection_loop_refines (sd : OptionSide)
    (market_price S K T r q tol : R) :
  0 < S -> 0 < K -> 0 < T ->
  forall (n : nat) (low high f_low f_high : R),
    0 <= low -> 0 <= high ->
    f_low = price sd S K T r q low - market_price ->
    exists v,
      bisection_loop (side_name sd) market_price S K T r q tol n
        low high f_low f_high = Ok v
      /\ bisection_iterates (fun x => price sd S K T r q x - market_price)
           tol n low high v.
Proof.
  intros HS HK HT.
  induction n as [| n IH]; intros low high f_low f_high Hlo Hhi Hf.
  - exists NaN. split; [reflexivity | constructor].
  - simpl.
    replace (0.5 * (low + high)) with ((low + high) / 2) by lra.
    set (mid := (low + high) / 2).
    assert (Hmid : 0 <= mid) by (unfold mid; lra).
    rewrite (black_scholes_price_refines (side_name sd) sd)
      by (try apply denotes_normal; assumption || lra).
    simpl bind.
    set (f_mid := price sd S K T r q mid - market_price).
    destruct (flt (Rabs f_mid) tol || flt (high - low) tol) eqn:Ec.
    + exists (Num mid). split; [reflexivity |].
      apply bisection_converged. fold mid. fold f_mid.
      apply orb_true_iff in Ec. destruct Ec as [Ec | Ec];
        apply flt_iff in Ec; [left | right]; assumption.
    + assert (Hn : ~ (Rabs f_mid < tol \/ high - low < tol)).
      { apply orb_false_iff in Ec. destruct Ec as [E1 E2].
        intros [H | H]; apply flt_iff in H; congruence. }
      destruct (Rle_dec (f_low * f_mid) 0) as [Hs | Hs].
      * rewrite (fle_true _ _ Hs).
        destruct (IH low mid f_low f_mid Hlo Hmid Hf) as [v [Hrun Hit]].
        exists v. split; [exact Hrun |].
        apply bisection_lower; fold mid; fold f_mid;
          [exact Hn | rewrite <- Hf; exact Hs | exact Hit].
      * rewrite (fle_false _ _ Hs).
        destruct (IH mid high f_mid f_high Hmid Hhi eq_refl)
          as [v [Hrun Hit]].
        exists v. split; [exact Hrun |].
        apply bisection_upper; fold mid; fold f_mid;
          [exact Hn | rewrite <- Hf; exact Hs | exact Hit].
Qed.

(** C5. Once the rejection rules have passed, [implied_vol_bisection]
    evaluates f(sigma) = price(sigma) - market_price at [sigma_low] and
    [sigma_high] (1e-6 and 5.0 when left out) and returns NaN when
    f(sigma_low) * f(sigma_high) > 0; otherwise each iteration takes the
    midpoint, returns it when |f(mid)| < tol or high - low < tol, and else
    narrows: f(low) * f(mid) <= 0 sets high = mid, a tie included, and
    otherwise low = mid; [max_iter] iterations without convergence return
    NaN.  The result is the only one this procedure allows. *)
Theorem bisection_semantics (s : string) (sd : OptionSide)
    (market_price S K T r q tol : R) (max_iter : Z)
    (sigma_low sigma_high : R) (enforce_bounds : bool) :
  denotes s sd -> 0 < S -> 0 < K ->
  ~ rejected sd market_price S K T r q enforce_bounds ->
  0 <= sigma_low -> 0 <= sigma_high ->
  let f := fun x => price sd S K T r q x - market_price in
  (exists v,
     implied_vol_bisection s market_price S K T r q tol max_iter
       sigma_low sigma_high enforce_bounds = Ok v
     /\ bisection_result f tol (Z.to_nat max_iter) sigma_low sigma_high v
     /\ forall w,
          bisection_result f tol (Z.to_nat max_iter) sigma_low sigma_high w ->
          w = v)
  /\ implied_vol_bisection_default s market_price S K T r q
     = implied_vol_bisection s market_price S K T r q 1e-7 200 1e-6 5.0 true.
Proof.
  intros Hd HS HK Hrej Hlo Hhi f.
  split; [| reflexivity].
  assert (HT : 0 < T) by (unfold rejected in Hrej; lra).
  destruct (rejection_guard_passes sd market_price S K T r q enforce_bounds
              Hrej) as [G1 [G2 G3]].
  assert (Hhead :
            implied_vol_bisection s market_price S K T r q tol max_iter
              sigma_low sigma_high enforce_bounds
            = if flt 0 (f sigma_low * f sigma_high) then Ok NaN
              else bisection_loop (side_name sd) market_price S K T r q tol
                     (Z.to_nat max_iter) sigma_low sigma_high
                     (f sigma_low) (f sigma_high)).
  { unfold implied_vol_bisection.
    rewrite (denotes_str_in s sd Hd). simpl negb. cbv iota.
    red in Hd. rewrite Hd, G1, G2, G3. simpl orb. cbv iota.
    rewrite !(black_scholes_price_refines (side_name sd) sd)
      by (try apply denotes_normal; assumption || lra).
    reflexivity. }
  rewrite Hhead.
  destruct (Rlt_dec 0 (f sigma_low * f sigma_high)) as [Hp | Hp].
  - rewrite (flt_true _ _ Hp). exists NaN.
    split; [reflexivity |]. split.
    + split; [reflexivity | contradiction].
    + intros w [Hw _]. apply Hw. exact Hp.
  - rewrite (flt_false _ _ Hp).
    destruct (bisection_loop_refines sd market_price S K T r q tol HS HK HT
                (Z.to_nat max_iter) sigma_low sigma_high (f sigma_low)
                (f sigma_high) Hlo Hhi eq_refl) as [v [Hrun Hit]].
    exists v. split; [exact Hrun |]. split.
    + split; [contradiction | intros _; exact Hit].
    + intros w [_ Hw].
      exact (bisection_iterates_deterministic _ _ _ _ _ _ _ (Hw Hp) Hit).
Qed.

Lemma bisection_semantics_witness :
  (exists v,
     implied_vol_bisection "put" 10 100 100 1 0.05 0 1e-7 200 1e-6 5 false
     = Ok v
     /\ bisection_result (fun x => price Put 100 100 1 0.05 0 x - 10) 1e-7
          (Z.to_nat 200) 1e-6 5 v
     /\ forall w,
          bisection_result (fun x => price Put 100 100 1 0.05 0 x - 10) 1e-7
            (Z.to_nat 200) 1e-6 5 w -> w = v)
  /\ implied_vol_bisection_default "put" 10 100 100 1 0.05 0
     = implied_vol_bisection "put" 10 100 100 1 0.05 0 1e-7 200 1e-6 5.0 true.
Proof.
  refine (bisection_semantics "put" Put 10 100 100 1 0.05 0 1e-7 200 1e-6 5
            false _ _ _ _ _ _);
    [reflexivity | lra | lra | | lra | lra].
  unfold rejected. intros [H | [H | [H _]]]; [lra | lra | discriminate].
Defined.

(** ** The standard normal law *)

Lemma norm_pdf_continuity (x : R) : continuity_pt norm_pdf x.
Proof. unfold norm_pdf. reg. Qed.

Lemma norm_pdf_even (x : R) : norm_pdf (- x) = norm_pdf x.
Proof. unfold norm_pdf. replace (- x * - x) with (x * x) by ring. reflexivity. Qed.

Lemma sqrt_2PI_pos : 0 < sqrt (2 * PI).
Proof. apply sqrt_lt_R0. pose proof PI_RGT_0. lra. Qed.

Lemma norm_pdf_pos (x : R) : 0 < norm_pdf x.
Proof.
  unfold norm_pdf. apply Rdiv_lt_0_compat; [apply exp_pos | apply sqrt_2PI_pos].
Qed.

Lemma norm_pdf_mass_chasles (a b c : R) :
  RiemannInt (norm_pdf_integrable a b) + RiemannInt (norm_pdf_integrable b c)
  = RiemannInt (norm_pdf_integrable a c).
Proof. apply RiemannInt_P26. Qed.

Lemma norm_pdf_mass_odd (x : R) :
  RiemannInt (norm_pdf_integrable 0 (- x))
  = - RiemannInt (norm_pdf_integrable 0 x).
Proof.
  set (M := Rabs x).
  assert (HM : - M <= x <= M).
  { unfold M, Rabs. destruct (Rcase_abs x); lra. }
  assert (h : - M <= M) by lra.
  assert (C0 : forall y : R, - M <= y <= M -> continuity_pt norm_pdf y)
    by (intros y _; apply norm_pdf_continuity).
  set (P := primitive h (FTC_P1 h C0)).
  assert (HP : forall y, - M <= y <= M ->
                         P y = RiemannInt (norm_pdf_integrable (- M) y)).
  { intros y Hy. unfold P, primitive.
    destruct (Rle_dec (- M) y) as [H1 | H1]; [| lra].
    destruct (Rle_dec y M) as [H2 | H2]; [| lra].
    apply RiemannInt_P5. }
  set (Q := (- (comp P (- id)))%F).
  assert (A1 : antiderivative norm_pdf P (- M) M)
    by (apply RiemannInt_P29).
  assert (A2 : antiderivative norm_pdf Q (- M) M).
  { split; [| exact h]. intros y Hy.
    assert (Hlim : derivable_pt_lim Q y (norm_pdf y)).
    { replace (norm_pdf y) with (- (norm_pdf (- y) * - 1))
        by (rewrite norm_pdf_even; ring).
      unfold Q. apply derivable_pt_lim_opp.
      apply derivable_pt_lim_comp.
      - replace (-1) with (- 1) by ring.
        apply derivable_pt_lim_opp. apply derivable_pt_lim_id.
      - unfold opp_fct, id. unfold P.
        apply RiemannInt_P28. lra. }
    exists (exist _ (norm_pdf y) Hlim). reflexivity. }
  destruct (antiderivative_Ucte norm_pdf P Q (- M) M A1 A2) as [c Hc].
  assert (E0 : P 0 = - P 0 + c).
  { rewrite (Hc 0) at 1 by lra. unfold Q, opp_fct, comp, id.
    rewrite Ropp_0. reflexivity. }
  assert (Ex : P x = - P (- x) + c).
  { rewrite (Hc x) at 1 by lra. reflexivity. }
  rewrite (HP x), (HP (- x)) in Ex by lra.
  rewrite (HP 0) in E0 by lra.
  pose proof (norm_pdf_mass_chasles (- M) 0 x) as Cx.
  pose proof (norm_pdf_mass_chasles (- M) 0 (- x)) as Cn.
  lra.
Qed.

Lemma norm_cdf_symmetry (x : R) : norm_cdf (- x) = 1 - norm_cdf x.
Proof. unfold norm_cdf. rewrite norm_pdf_mass_odd. lra. Qed.

Lemma norm_pdf_le_1 (x : R) : norm_pdf x <= 1.
Proof.
  unfold norm_pdf.
  pose proof (exp_ineq1_le (x * x / 2)) as H1.
  pose proof (exp_pos (- (x * x) / 2)) as H2.
  assert (H3 : exp (- (x * x) / 2) * exp (x * x / 2) = 1).
  { rewrite <- exp_plus. replace (- (x * x) / 2 + x * x / 2) with 0 by lra.
    apply exp_0. }
  assert (H4 : exp (- (x * x) / 2) <= 1) by nra.
  assert (H5 : 1 <= sqrt (2 * PI)).
  { rewrite <- sqrt_1 at 1. apply sqrt_le_1; pose proof PI2_1; lra. }
  apply Rmult_le_reg_r with (sqrt (2 * PI)); [lra |].
  unfold Rdiv. rewrite Rmult_assoc, Rinv_l by lra. lra.
Qed.

(** Between 0 and [x >= 0] the density carries a mass between 0 and [x]. *)
Lemma norm_cdf_bounds (x : R) :
  0 <= x -> 1 / 2 <= norm_cdf x <= 1 / 2 + x.
Proof.
  intros Hx. unfold norm_cdf.
  pose proof (@RiemannInt_const_bound norm_pdf 0 x 0 1
                (norm_pdf_integrable 0 x) Hx) as H.
  assert (Hb : forall y : R, 0 < y < x -> 0 <= norm_pdf y <= 1).
  { intros y _. pose proof (norm_pdf_pos y). pose proof (norm_pdf_le_1 y).
    lra. }
  specialize (H Hb). lra.
Qed.

(** The density bounds the mass of an interval from below, and the
    distribution function is increasing. *)
Lemma norm_pdf_mass_lower (a b m : R) :
  a <= b -> (forall y : R, a < y < b -> m <= norm_pdf y) ->
  m * (b - a) <= RiemannInt (norm_pdf_integrable a b).
Proof.
  intros Hab Hm.
  pose proof (@RiemannInt_const_bound norm_pdf a b m 1
                (norm_pdf_integrable a b) Hab) as H.
  assert (Hb : forall y : R, a < y < b -> m <= norm_pdf y <= 1).
  { intros y Hy. split; [apply Hm; exact Hy | apply norm_pdf_le_1]. }
  specialize (H Hb). lra.
Qed.

Lemma norm_cdf_increasing (a b : R) : a <= b -> norm_cdf a <= norm_cdf b.
Proof.
  intros Hab. unfold norm_cdf.
  rewrite <- (norm_pdf_mass_chasles 0 a b).
  pose proof (norm_pdf_mass_lower a b 0 Hab) as H.
  assert (Hm : forall y : R, a < y < b -> 0 <= norm_pdf y)
    by (intros y _; pose proof (norm_pdf_pos y); lra).
  specialize (H Hm). lra.
Qed.

(** ** Put-call parity *)

(** The statement about binary64 is made with the notations of the
    primitive floats. *)
Section Binary64Parity.

Import PrimFloat.
Local Open Scope float_scope.
#[local] Set Warnings "-inexact-float".

(** C6, as stated, fails in binary64 at S = K = 1e13, T = 1, r = 0.05,
    q = 0 and sigma = 0: whatever the last bits of the exponential, as long
    as it is accurate to two units in the last place, the call price and
    the put price of [black_scholes_price] do not pass
    [put_call_parity_check] at the tolerance 1e-6.  The spacing of binary64
    numbers near 1e13 is 2e-3, and the products S * exp((r - q) * T) and
    K * exp(-r * T) are rounded to it. *)
Lemma call_put_parity_fails :
  ~ exists L : Binary64.libm,
      Binary64.exp_accurate L
      /\ Binary64.parity_within L 1e13 1e13 1 0.05 0 0.
Proof.
  intros [L [[H0 [H1 H2]] [c [p [Hc [Hp Hk]]]]]].
  cbv in H0, H1, H2, Hc, Hp.
  destruct H1 as [H1 | [H1 | [H1 | [H1 | [H1 | []]]]]];
    destruct H2 as [H2 | [H2 | [H2 | [H2 | [H2 | []]]]]];
    rewrite <- H1, <- H2 in Hc, Hp;
    vm_compute in Hc, Hp;
    injection Hc as <-; injection Hp as <-;
    cbv in Hk; rewrite H0, <- H2 in Hk; vm_compute in Hk;
    discriminate Hk.
Qed.

End Binary64Parity.

(** C6, amended.  In exact real arithmetic, for S > 0, K > 0, T >= 0 and
    sigma >= 0, the call price minus the put price of [black_scholes_price]
    equals S * exp(-q * T) - K * exp(-r * T), in the closed-form branch and
    in the T = 0 and sigma = 0 branches alike: the three pairs of formulas
    satisfy parity exactly, and what the binary64 results miss is rounding
    alone. *)
Theorem call_put_parity (S K T r q sigma : R) :
  0 < S -> 0 < K -> 0 <= T -> 0 <= sigma ->
  exists c p,
    black_scholes_price "call" S K T r q sigma = Ok c
    /\ black_scholes_price "put" S K T r q sigma = Ok p
    /\ c - p = S * exp (- q * T) - K * exp (- r * T).
Proof.
  intros HS HK HT Hs.
  exists (price Call S K T r q sigma), (price Put S K T r q sigma).
  split; [apply (black_scholes_price_refines "call" Call);
          (reflexivity || assumption) |].
  split; [apply (black_scholes_price_refines "put" Put);
          (reflexivity || assumption) |].
  unfold price.
  destruct (Req_dec_T T 0) as [HT0 | HT0].
  - rewrite (feq_true T 0 HT0). subst T.
    replace (- q * 0) with 0 by ring. replace (- r * 0) with 0 by ring.
    rewrite exp_0. unfold Rmax.
    destruct (Rle_dec (S - K) 0); destruct (Rle_dec (K - S) 0); lra.
  - rewrite (feq_false T 0 HT0).
    destruct (Req_dec_T sigma 0) as [Hs0 | Hs0].
    + rewrite (feq_true sigma 0 Hs0).
      assert (Hd : exp (- r * T) * (S * exp ((r - q) * T))
                   = S * exp (- q * T)).
      { replace (- q * T) with (- r * T + (r - q) * T) by ring.
        rewrite exp_plus. ring. }
      cbv zeta. rewrite <- Hd.
      set (F := S * exp ((r - q) * T)).
      assert (Hm : Rmax (F - K) 0 - Rmax (K - F) 0 = F - K).
      { unfold Rmax.
        destruct (Rle_dec (F - K) 0); destruct (Rle_dec (K - F) 0); lra. }
      rewrite <- Rmult_minus_distr_l, Hm. ring.
    + rewrite (feq_false sigma 0 Hs0).
      rewrite !norm_cdf_symmetry. ring.
Qed.

Lemma call_put_parity_witness :
  exists c p,
    black_scholes_price "call" 100 90 1 0.05 0.01 0.2 = Ok c
    /\ black_scholes_price "put" 100 90 1 0.05 0.01 0.2 = Ok p
    /\ c - p = 100 * exp (- (0.01) * 1) - 90 * exp (- (0.05) * 1).
Proof.
  apply (call_put_parity 100 90 1 0.05 0.01 0.2); lra.
Defined.

(** ** The round trip *)

Lemma newton_loop_converges_at_once (s : string)
    (market_price S K T r q tol vega_floor sigma_min sigma_max : R)
    (n : nat) (sigma p : R) :
  black_scholes_price s S K T r q sigma = Ok p ->
  Rabs (p - market_price) < tol ->
  newton_loop s market_price S K T r q tol vega_floor sigma_min sigma_max
    (Datatypes.S n) sigma = Ok (Num sigma).
Proof.
  intros Hp Hc. simpl. rewrite Hp. simpl. rewrite (flt_true _ _ Hc).
  reflexivity.
Qed.

Lemma implied_vol_newton_head (s : string) (sd : OptionSide)
    (market_price S K T r q initial_sigma tol : R) (max_iter : Z)
    (vega_floor sigma_min sigma_max : R) (enforce_bounds : bool) :
  denotes s sd ->
  implied_vol_newton s market_price S K T r q initial_sigma tol max_iter
    vega_floor sigma_min sigma_max enforce_bounds = Ok NaN
  \/ (0 <= market_price /\ 0 < T
      /\ implied_vol_newton s market_price S K T r q initial_sigma tol
           max_iter vega_floor sigma_min sigma_max enforce_bounds
         = newton_loop (side_name sd) market_price S K T r q tol vega_floor
             sigma_min sigma_max (Z.to_nat max_iter)
             (Rmin (Rmax initial_sigma sigma_min) sigma_max)).
Proof.
  intros Hd. unfold implied_vol_newton.
  rewrite (denotes_str_in s sd Hd). simpl negb. cbv iota.
  red in Hd. rewrite Hd.
  destruct (Rlt_dec market_price 0) as [H1 | H1];
    [rewrite (flt_true _ _ H1); left; reflexivity |].
  rewrite (flt_false _ _ H1).
  destruct (Rle_dec T 0) as [H2 | H2];
    [rewrite (fle_true _ _ H2); left; reflexivity |].
  rewrite (fle_false _ _ H2).
  match goal with
  | |- context [if ?b then Ok NaN else _] => destruct b
  end; [left; reflexivity |].
  right. rewrite pymax_Rmax, pymin_Rmin.
  split; [lra |]. split; [lra | reflexivity].
Qed.


Lemma price_at_the_money (S sigma : R) :
  0 < S -> 0 < sigma ->
  price Call S S 1 0 0 sigma = S * (2 * norm_cdf (sigma / 2) - 1).
Proof.
  intros HS Hs. unfold price.
  rewrite (feq_false 1 0) by lra. rewrite (feq_false sigma 0) by lra.
  assert (E1 : d1 S S 1 0 0 sigma = sigma / 2).
  { unfold d1. replace (S / S) with 1 by (field; lra).
    rewrite ln_1, sqrt_1. replace 0.5 with (1 / 2) by lra. field. lra. }
  assert (E2 : d2 S S 1 0 0 sigma = - (sigma / 2)).
  { unfold d2. rewrite E1, sqrt_1. lra. }
  rewrite E1, E2, norm_cdf_symmetry.
  replace (- 0 * 1) with 0 by ring. rewrite exp_0. ring.
Qed.

Lemma price_at_the_money_bounds (S sigma : R) :
  0 < S -> 0 < sigma ->
  0 <= price Call S S 1 0 0 sigma <= S * sigma.
Proof.
  intros HS Hs. rewrite price_at_the_money by assumption.
  pose proof (norm_cdf_bounds (sigma / 2)) as H.
  assert (H0 : 0 <= sigma / 2) by lra. specialize (H H0).
  split; [apply Rmult_le_pos; lra |].
  apply Rmult_le_compat_l; lra.
Qed.




(** * Further properties of the code *)

(** ** What a returned price tells about the inputs *)

Lemma fle_false_inv (x y : R) : fle x y = false -> ~ x <= y.
Proof. intros H Hxy. rewrite (fle_true _ _ Hxy) in H. discriminate. Qed.

Lemma flt_false_inv (x y : R) : flt x y = false -> ~ x < y.
Proof. intros H Hxy. rewrite (flt_true _ _ Hxy) in H. discriminate. Qed.

Lemma _validate_inputs_ok_inv (S K T sigma : R) (u : unit) :
  _validate_inputs S K T sigma = Ok u ->
  0 < S /\ 0 < K /\ 0 <= T /\ 0 <= sigma.
Proof.
  unfold _validate_inputs. intros H.
  destruct (fle S 0) eqn:E1; [discriminate |].
  destruct (fle K 0) eqn:E2; [discriminate |].
  destruct (flt T 0) eqn:E3; [discriminate |].
  destruct (flt sigma 0) eqn:E4; [discriminate |].
  apply fle_false_inv in E1, E2. apply flt_false_inv in E3, E4. lra.
Qed.

Lemma black_scholes_price_ok_inv (s : string) (S K T r q sigma p : R) :
  black_scholes_price s S K T r q sigma = Ok p ->
  exists sd,
    denotes s sd /\ 0 < S /\ 0 < K /\ 0 <= T /\ 0 <= sigma
    /\ p = price sd S K T r q sigma.
Proof.
  intros H. pose proof H as H0. unfold black_scholes_price in H0.
  destruct (str_in (strip (lower s)) ["call"; "put"]) eqn:Es;
    [| discriminate].
  destruct (str_in_denotes s Es) as [sd Hd]. simpl negb in H0.
  cbv iota in H0.
  destruct (_validate_inputs S K T sigma) as [u | e] eqn:Ev;
    [| discriminate].
  destruct (_validate_inputs_ok_inv S K T sigma u Ev) as [HS [HK [HT Hs]]].
  exists sd. repeat (split; [assumption |]).
  rewrite (black_scholes_price_refines s sd) in H by assumption.
  injection H as H. symmetry. exact H.
Qed.


(** ** The no-arbitrage bounds *)

(** X1. For a non-negative spot and strike the bounds that
    [_no_arbitrage_bounds] returns are ordered, 0 <= lower <= upper, for
    the call and for any other side string. *)
Theorem no_arbitrage_bounds_ordered (option_type : string)
    (S K T r q : R) :
  0 <= S -> 0 <= K ->
  0 <= fst (_no_arbitrage_bounds option_type S K T r q)
  /\ fst (_no_arbitrage_bounds option_type S K T r q)
     <= snd (_no_arbitrage_bounds option_type S K T r q).
Proof.
  intros HS HK. unfold _no_arbitrage_bounds, math_exp.
  pose proof (exp_pos (- q * T)) as Hq. pose proof (exp_pos (- r * T)) as Hr.
  assert (H1 : 0 <= S * exp (- q * T)) by (apply Rmult_le_pos; lra).
  assert (H2 : 0 <= K * exp (- r * T)) by (apply Rmult_le_pos; lra).
  destruct (String.eqb option_type "call"); simpl fst; simpl snd;
    rewrite pymax_Rmax; unfold Rmax;
    match goal with
    | |- context [Rle_dec ?a ?b] => destruct (Rle_dec a b)
    end; lra.
Qed.

Lemma no_arbitrage_bounds_ordered_witness :
  0 <= fst (_no_arbitrage_bounds "put" 100 90 1 0.05 0)
  /\ fst (_no_arbitrage_bounds "put" 100 90 1 0.05 0)
     <= snd (_no_arbitrage_bounds "put" 100 90 1 0.05 0).
Proof.
  apply (no_arbitrage_bounds_ordered "put" 100 90 1 0.05 0); lra.
Defined.

(** X2. The bounds of the two sides obey put-call parity: the lower bound
    of the call minus the lower bound of the put, and likewise the upper
    bounds, equal S * exp(-q * T) - K * exp(-r * T). *)
Theorem no_arbitrage_bounds_parity (S K T r q : R) :
  fst (_no_arbitrage_bounds "call" S K T r q)
  - fst (_no_arbitrage_bounds "put" S K T r q)
  = S * exp (- q * T) - K * exp (- r * T)
  /\ snd (_no_arbitrage_bounds "call" S K T r q)
     - snd (_no_arbitrage_bounds "put" S K T r q)
     = S * exp (- q * T) - K * exp (- r * T).
Proof.
  unfold _no_arbitrage_bounds, math_exp. simpl fst. simpl snd.
  split; [| reflexivity].
  rewrite !pymax_Rmax. unfold Rmax.
  destruct (Rle_dec 0 (S * exp (- q * T) - K * exp (- r * T)));
    destruct (Rle_dec 0 (K * exp (- r * T) - S * exp (- q * T))); lra.
Qed.






(** ** Vega *)

(** X4. On admissible inputs [black_scholes_vega] returns a non-negative
    number, which is 0 when T = 0 or sigma = 0. *)
Theorem vega_sign (S K T r q sigma : R) :
  0 < S -> 0 < K -> 0 <= T -> 0 <= sigma ->
  exists v,
    black_scholes_vega S K T r q sigma = Ok v
    /\ 0 <= v
    /\ (T = 0 \/ sigma = 0 -> v = 0).
Proof.
  intros HS HK HT Hs. exists (vega S K T r q sigma).
  split; [apply black_scholes_vega_refines; assumption |].
  unfold vega.
  destruct (Req_dec_T T 0) as [HT0 | HT0].
  - rewrite (feq_true T 0 HT0). simpl. split; [lra | reflexivity].
  - rewrite (feq_false T 0 HT0). simpl.
    destruct (Req_dec_T sigma 0) as [Hs0 | Hs0].
    + rewrite (feq_true sigma 0 Hs0). split; [lra | reflexivity].
    + rewrite (feq_false sigma 0 Hs0).
      assert (Hpos : 0 < S * exp (- q * T)
                         * norm_pdf (d1 S K T r q sigma) * sqrt T).
      { apply Rmult_lt_0_compat;
          [| apply sqrt_maturity_pos; assumption].
        apply Rmult_lt_0_compat; [| apply norm_pdf_pos].
        apply Rmult_lt_0_compat; [exact HS | apply exp_pos]. }
      split; [lra | tauto].
Qed.

Lemma vega_sign_witness :
  exists v,
    black_scholes_vega 100 90 0.5 0.05 0 0.2 = Ok v
    /\ 0 <= v
    /\ (0.5 = 0 \/ 0.2 = 0 -> v = 0).
Proof.
  apply (vega_sign 100 90 0.5 0.05 0 0.2); lra.
Defined.

(** ** Scaling and duality *)









(** ** What the solvers return *)

Lemma black_scholes_price_normal_form (s : string) (sd : OptionSide)
    (S K T r q sigma : R) :
  denotes s sd ->
  black_scholes_price (side_name sd) S K T r q sigma
  = black_scholes_price s S K T r q sigma.
Proof.
  intros Hd. unfold black_scholes_price. red in Hd. rewrite Hd.
  destruct sd; reflexivity.
Qed.

Lemma clamp_in_range (x lo hi : R) :
  lo <= hi -> lo <= pymin (pymax x lo) hi <= hi.
Proof.
  intros H. rewrite pymax_Rmax, pymin_Rmin. unfold Rmax.
  destruct (Rle_dec x lo); unfold Rmin;
    match goal with
    | |- context [Rle_dec ?a ?b] => destruct (Rle_dec a b)
    end; lra.
Qed.

Lemma newton_loop_postcondition (s : string)
    (market_price S K T r q tol vega_floor sigma_min sigma_max : R)
    (n : nat) :
  forall sigma x,
    newton_loop s market_price S K T r q tol vega_floor sigma_min sigma_max
      n sigma = Ok (Num x) ->
    sigma_min <= sigma <= sigma_max ->
    sigma_min <= x <= sigma_max
    /\ exists p,
         black_scholes_price s S K T r q x = Ok p
         /\ Rabs (p - market_price) < tol.
Proof.
  induction n as [| n IH]; intros sigma x H Hr; [discriminate |].
  cbn [newton_loop] in H.
  destruct (black_scholes_price s S K T r q sigma) as [p | e] eqn:Hp;
    [| discriminate].
  cbn [bind] in H.
  destruct (flt (Rabs (p - market_price)) tol) eqn:Ec.
  - injection H as H. subst x. split; [exact Hr |].
    exists p. split; [exact Hp | apply flt_iff; exact Ec].
  - destruct (black_scholes_vega S K T r q sigma) as [v | e];
      [| discriminate].
    cbn [bind] in H. destruct (flt v vega_floor); [discriminate |].
    unfold fdiv in H. destruct (feq v 0); [discriminate |].
    cbn [bind] in H.
    destruct (flt (sigma - (p - market_price) / v) sigma_min) eqn:E1;
      [discriminate |].
    destruct (flt sigma_max (sigma - (p - market_price) / v)) eqn:E2;
      [discriminate |].
    cbn [orb] in H. apply flt_false_inv in E1, E2.
    apply (IH _ _ H). lra.
Qed.

Lemma implied_vol_newton_ok_inv (s : string)
    (market_price S K T r q initial_sigma tol : R) (max_iter : Z)
    (vega_floor sigma_min sigma_max : R) (enforce_bounds : bool) (x : R) :
  implied_vol_newton s market_price S K T r q initial_sigma tol max_iter
    vega_floor sigma_min sigma_max enforce_bounds = Ok (Num x) ->
  exists sd,
    denotes s sd /\ 0 <= market_price /\ 0 < T
    /\ newton_loop (side_name sd) market_price S K T r q tol vega_floor
         sigma_min sigma_max (Z.to_nat max_iter)
         (pymin (pymax initial_sigma sigma_min) sigma_max) = Ok (Num x).
Proof.
  unfold implied_vol_newton. intros H.
  destruct (str_in (strip (lower s)) ["call"; "put"]) eqn:Es;
    [| discriminate].
  destruct (str_in_denotes s Es) as [sd Hd]. exists sd.
  cbn [negb] in H. pose proof Hd as Hn. red in Hn. rewrite Hn in H.
  destruct (flt market_price 0) eqn:E1; [discriminate |].
  destruct (fle T 0) eqn:E2; [discriminate |].
  apply flt_false_inv in E1. apply fle_false_inv in E2.
  match type of H with
  | (if ?b then Ok NaN else _) = _ => destruct b
  end; [discriminate |].
  split; [exact Hd |]. split; [lra |]. split; [lra | exact H].
Qed.

(** X8. A number that [implied_vol_newton] returns, with
    sigma_min <= sigma_max, lies in [[sigma_min, sigma_max]] and reprices
    within [tol] of the market price, wherever the initial guess was; the
    market price is then non-negative and T positive. *)
Theorem newton_result_postcondition (s : string)
    (market_price S K T r q initial_sigma tol : R) (max_iter : Z)
    (vega_floor sigma_min sigma_max : R) (enforce_bounds : bool) (x : R) :
  implied_vol_newton s market_price S K T r q initial_sigma tol max_iter
    vega_floor sigma_min sigma_max enforce_bounds = Ok (Num x) ->
  sigma_min <= sigma_max ->
  sigma_min <= x <= sigma_max
  /\ 0 <= market_price /\ 0 < T
  /\ exists p,
       black_scholes_price s S K T r q x = Ok p
       /\ Rabs (p - market_price) < tol.
Proof.
  intros H Hr.
  destruct (implied_vol_newton_ok_inv _ _ _ _ _ _ _ _ _ _ _ _ _ _ _ H)
    as [sd [Hd [Hm [HT Hl]]]].
  destruct (newton_loop_postcondition _ _ _ _ _ _ _ _ _ _ _ _ _ _ Hl
              (clamp_in_range initial_sigma sigma_min sigma_max Hr))
    as [Hx [p [Hp Hc]]].
  split; [exact Hx |]. split; [exact Hm |]. split; [exact HT |].
  exists p. rewrite <- (black_scholes_price_normal_form s sd) by exact Hd.
  split; assumption.
Qed.

Lemma clamp_of_in_range (x lo hi : R) :
  lo <= x <= hi -> pymin (pymax x lo) hi = x.
Proof.
  intros H. rewrite pymax_Rmax, pymin_Rmin. unfold Rmax.
  destruct (Rle_dec x lo); unfold Rmin;
    match goal with
    | |- context [Rle_dec ?a ?b] => destruct (Rle_dec a b)
    end; lra.
Qed.

Lemma newton_accepts_exact_guess (s : string)
    (market_price S K T r q sigma tol : R) (max_iter : Z)
    (vega_floor sigma_min sigma_max : R) (enforce_bounds : bool) :
  black_scholes_price s S K T r q sigma = Ok market_price ->
  0 <= market_price -> 0 < T ->
  (enforce_bounds = true ->
   fst (_no_arbitrage_bounds (strip (lower s)) S K T r q) - 1e-12
   <= market_price
   <= snd (_no_arbitrage_bounds (strip (lower s)) S K T r q) + 1e-12) ->
  0 < tol -> (0 < max_iter)%Z -> sigma_min <= sigma <= sigma_max ->
  implied_vol_newton s market_price S K T r q sigma tol max_iter
    vega_floor sigma_min sigma_max enforce_bounds = Ok (Num sigma).
Proof.
  intros Hp Hm HT Hb Htol Hit Hr.
  destruct (black_scholes_price_ok_inv s S K T r q sigma market_price Hp)
    as [sd [Hd _]].
  unfold implied_vol_newton.
  rewrite (denotes_str_in s sd Hd). cbn [negb].
  rewrite (flt_false market_price 0) by lra.
  rewrite (fle_false T 0) by lra.
  assert (G : (if enforce_bounds
               then let (lb, ub) :=
                      _no_arbitrage_bounds (strip (lower s)) S K T r q in
                    outside_bounds lb ub market_price
               else false) = false).
  { destruct enforce_bounds; [| reflexivity].
    specialize (Hb eq_refl).
    destruct (_no_arbitrage_bounds (strip (lower s)) S K T r q) as [lb ub].
    cbn [fst snd] in Hb. unfold outside_bounds.
    rewrite (fle_true (lb - 1e-12) market_price) by lra.
    rewrite (fle_true market_price (ub + 1e-12)) by lra. reflexivity. }
  rewrite G, (clamp_of_in_range sigma sigma_min sigma_max Hr).
  destruct (Z.to_nat max_iter) as [| n] eqn:En; [lia |].
  apply (newton_loop_converges_at_once _ _ _ _ _ _ _ _ _ _ _ _ _
           market_price).
  - red in Hd. rewrite Hd.
    rewrite (black_scholes_price_normal_form s sd) by exact Hd. exact Hp.
  - unfold Rminus. rewrite Rplus_opp_r, Rabs_R0. exact Htol.
Qed.

Lemma at_the_money_price_accepted (sigma : R) :
  0 < sigma <= 1 ->
  black_scholes_price "call" 100 100 1 0 0 sigma
  = Ok (price Call 100 100 1 0 0 sigma)
  /\ 0 <= price Call 100 100 1 0 0 sigma
  /\ fst (_no_arbitrage_bounds (strip (lower "call")) 100 100 1 0 0) - 1e-12
     <= price Call 100 100 1 0 0 sigma
     <= snd (_no_arbitrage_bounds (strip (lower "call")) 100 100 1 0 0)
        + 1e-12.
Proof.
  intros Hs.
  split; [apply (black_scholes_price_refines "call" Call);
          (reflexivity || lra) |].
  pose proof (price_at_the_money_bounds 100 sigma) as B.
  assert (H1 : 0 < 100) by lra. assert (H2 : 0 < sigma) by lra.
  specialize (B H1 H2).
  split; [lra |].
  change (strip (lower "call")) with (side_name Call).
  rewrite _no_arbitrage_bounds_refines. unfold bounds. cbn [fst snd].
  replace (- 0 * 1) with 0 by ring. rewrite exp_0. unfold Rmax.
  destruct (Rle_dec 0 (100 * 1 - 100 * 1)); nra.
Qed.

Lemma newton_on_at_the_money_price :
  implied_vol_newton "call" (price Call 100 100 1 0 0 0.2) 100 100 1 0 0
    0.2 1e-7 100 1e-10 1e-6 5.0 true = Ok (Num 0.2).
Proof.
  destruct (at_the_money_price_accepted 0.2) as [Hp [Hm Hb]]; [lra |].
  apply newton_accepts_exact_guess;
    [exact Hp | exact Hm | lra | intros _; exact Hb | lra | lia | lra].
Qed.

Lemma newton_result_postcondition_witness :
  1e-6 <= 0.2 <= 5.0
  /\ 0 <= price Call 100 100 1 0 0 0.2 /\ 0 < 1
  /\ exists p,
       black_scholes_price "call" 100 100 1 0 0 0.2 = Ok p
       /\ Rabs (p - price Call 100 100 1 0 0 0.2) < 1e-7.
Proof.
  apply (newton_result_postcondition "call" (price Call 100 100 1 0 0 0.2)
           100 100 1 0 0 0.2 1e-7 100 1e-10 1e-6 5.0 true 0.2);
    [exact newton_on_at_the_money_price | lra].
Defined.

Lemma sign_change_moves_up (fl fm fh : R) :
  fl * fh <= 0 -> ~ fl * fm <= 0 -> fm * fh <= 0.
Proof.
  intros H1 H2.
  destruct (Rle_dec (fm * fh) 0) as [Hm | Hm]; [exact Hm |].
  exfalso.
  assert (Hq : 0 <= (fm * fm) * (- (fl * fh)))
    by (apply Rmult_le_pos; [apply Rle_0_sqr | lra]).
  nra.
Qed.

Lemma bisection_loop_postcondition (s : string)
    (market_price S K T r q tol lo0 hi0 : R) (n : nat) :
  forall low high f_low f_high x,
    bisection_loop s market_price S K T r q tol n low high f_low f_high
    = Ok (Num x) ->
    lo0 <= low -> low <= high -> high <= hi0 ->
    black_scholes_price s S K T r q low = Ok (f_low + market_price) ->
    black_scholes_price s S K T r q high = Ok (f_high + market_price) ->
    f_low * f_high <= 0 ->
    lo0 <= x <= hi0
    /\ exists p,
         black_scholes_price s S K T r q x = Ok p
         /\ (Rabs (p - market_price) < tol
             \/ exists a b pa pb,
                  lo0 <= a /\ a <= b /\ b <= hi0
                  /\ x = 0.5 * (a + b) /\ b - a < tol
                  /\ black_scholes_price s S K T r q a = Ok pa
                  /\ black_scholes_price s S K T r q b = Ok pb
                  /\ (pa - market_price) * (pb - market_price) <= 0).
Proof.
  induction n as [| n IH];
    intros low high f_low f_high x H H1 H2 H3 Hl Hh Hsign;
    [discriminate |].
  cbn [bisection_loop] in H.
  destruct (black_scholes_price s S K T r q (0.5 * (low + high)))
    as [pm | e] eqn:Hp; [| discriminate].
  cbn [bind] in H.
  destruct (flt (Rabs (pm - market_price)) tol) eqn:Ec.
  - cbn [orb] in H. injection H as H. subst x. split; [lra |].
    exists pm. split; [exact Hp |]. left. apply flt_iff. exact Ec.
  - cbn [orb] in H.
    destruct (flt (high - low) tol) eqn:Ew.
    + injection H as H. subst x. split; [lra |].
      exists pm. split; [exact Hp |]. right.
      exists low, high, (f_low + market_price), (f_high + market_price).
      apply flt_iff in Ew.
      repeat (split; [assumption || reflexivity |]).
      replace (f_low + market_price - market_price) with f_low by ring.
      replace (f_high + market_price - market_price) with f_high by ring.
      exact Hsign.
    + assert (Hm : black_scholes_price s S K T r q (0.5 * (low + high))
                   = Ok (pm - market_price + market_price)).
      { rewrite Hp. f_equal. ring. }
      destruct (fle (f_low * (pm - market_price)) 0) eqn:Es.
      * apply fle_iff in Es.
        apply (IH _ _ _ _ _ H); (assumption || lra).
      * apply fle_false_inv in Es.
        apply (IH _ _ _ _ _ H); try (assumption || lra).
        apply (sign_change_moves_up f_low); assumption.
Qed.

Lemma implied_vol_bisection_ok_inv (s : string)
    (market_price S K T r q tol : R) (max_iter : Z)
    (sigma_low sigma_high : R) (enforce_bounds : bool) (x : R) :
  implied_vol_bisection s market_price S K T r q tol max_iter
    sigma_low sigma_high enforce_bounds = Ok (Num x) ->
  exists sd pl ph,
    denotes s sd /\ 0 <= market_price /\ 0 < T
    /\ black_scholes_price (side_name sd) S K T r q sigma_low = Ok pl
    /\ black_scholes_price (side_name sd) S K T r q sigma_high = Ok ph
    /\ (pl - market_price) * (ph - market_price) <= 0
    /\ bisection_loop (side_name sd) market_price S K T r q tol
         (Z.to_nat max_iter) sigma_low sigma_high
         (pl - market_price) (ph - market_price) = Ok (Num x).
Proof.
  unfold implied_vol_bisection. intros H.
  destruct (str_in (strip (lower s)) ["call"; "put"]) eqn:Es;
    [| discriminate].
  destruct (str_in_denotes s Es) as [sd Hd]. exists sd.
  cbn [negb] in H. pose proof Hd as Hn. red in Hn. rewrite Hn in H.
  destruct (flt market_price 0) eqn:E1; [discriminate |].
  destruct (fle T 0) eqn:E2; [discriminate |].
  cbn [orb] in H.
  apply flt_false_inv in E1. apply fle_false_inv in E2.
  match type of H with
  | (if ?b then Ok NaN else _) = _ => destruct b
  end; [discriminate |].
  destruct (black_scholes_price (side_name sd) S K T r q sigma_low)
    as [pl | e]; [| discriminate].
  destruct (black_scholes_price (side_name sd) S K T r q sigma_high)
    as [ph | e]; [| discriminate].
  cbn [bind] in H.
  destruct (flt 0 ((pl - market_price) * (ph - market_price))) eqn:E3;
    [discriminate |].
  apply flt_false_inv in E3.
  exists pl, ph. split; [exact Hd |]. split; [lra |]. split; [lra |].
  split; [reflexivity |]. split; [reflexivity |]. split; [lra | exact H].
Qed.

(** X9. A number that [implied_vol_bisection] returns, with
    sigma_low <= sigma_high, lies in [[sigma_low, sigma_high]] and passes
    one of the two convergence tests: it reprices within [tol] of the
    market price, or it is the midpoint of a bracket [[a, b]] with
    sigma_low <= a <= b <= sigma_high that is narrower than [tol] and
    across which price minus market price does not keep one strict sign. *)
Theorem bisection_result_postcondition (s : string)
    (market_price S K T r q tol : R) (max_iter : Z)
    (sigma_low sigma_high : R) (enforce_bounds : bool) (x : R) :
  implied_vol_bisection s market_price S K T r q tol max_iter
    sigma_low sigma_high enforce_bounds = Ok (Num x) ->
  sigma_low <= sigma_high ->
  sigma_low <= x <= sigma_high
  /\ exists p,
       black_scholes_price s S K T r q x = Ok p
       /\ (Rabs (p - market_price) < tol
           \/ exists a b pa pb,
                sigma_low <= a /\ a <= b /\ b <= sigma_high
                /\ x = 0.5 * (a + b) /\ b - a < tol
                /\ black_scholes_price s S K T r q a = Ok pa
                /\ black_scholes_price s S K T r q b = Ok pb
                /\ (pa - market_price) * (pb - market_price) <= 0).
Proof.
  intros H Hr.
  destruct (implied_vol_bisection_ok_inv _ _ _ _ _ _ _ _ _ _ _ _ _ H)
    as [sd [pl [ph [Hd [_ [_ [Hl [Hh [Hsign Hloop]]]]]]]]].
  rewrite (black_scholes_price_normal_form s sd) in Hl, Hh by exact Hd.
  assert (E : forall y : R,
             black_scholes_price (side_name sd) S K T r q y
             = black_scholes_price s S K T r q y)
    by (intros y; apply black_scholes_price_normal_form; exact Hd).
  destruct (bisection_loop_postcondition (side_name sd) market_price S K T
              r q tol sigma_low sigma_high (Z.to_nat max_iter)
              sigma_low sigma_high _ _ x Hloop)
    as [Hx [p [Hp Ht]]]; try lra.
  - rewrite E, Hl. f_equal. ring.
  - rewrite E, Hh. f_equal. ring.
  - split; [exact Hx |]. exists p. rewrite <- E. split; [exact Hp |].
    destruct Ht as [Ht | [a [b [pa [pb Hab]]]]]; [left; exact Ht |].
    right. exists a, b, pa, pb. rewrite <- !E. exact Hab.
Qed.

Lemma accepted_guard (s : string) (market_price S K T r q : R)
    (enforce_bounds : bool) :
  (enforce_bounds = true ->
   fst (_no_arbitrage_bounds s S K T r q) - 1e-12
   <= market_price
   <= snd (_no_arbitrage_bounds s S K T r q) + 1e-12) ->
  (if enforce_bounds
   then let (lb, ub) := _no_arbitrage_bounds s S K T r q in
        outside_bounds lb ub market_price
   else false) = false.
Proof.
  intros Hb. destruct enforce_bounds; [| reflexivity].
  specialize (Hb eq_refl).
  destruct (_no_arbitrage_bounds s S K T r q) as [lb ub].
  cbn [fst snd] in Hb. unfold outside_bounds.
  rewrite (fle_true (lb - 1e-12) market_price) by lra.
  rewrite (fle_true market_price (ub + 1e-12)) by lra. reflexivity.
Qed.

Lemma implied_vol_bisection_accepted (s : string) (sd : OptionSide)
    (market_price S K T r q tol : R) (max_iter : Z)
    (sigma_low sigma_high : R) (enforce_bounds : bool) (pl ph : R) :
  denotes s sd -> 0 <= market_price -> 0 < T ->
  (enforce_bounds = true ->
   fst (_no_arbitrage_bounds (strip (lower s)) S K T r q) - 1e-12
   <= market_price
   <= snd (_no_arbitrage_bounds (strip (lower s)) S K T r q) + 1e-12) ->
  black_scholes_price s S K T r q sigma_low = Ok pl ->
  black_scholes_price s S K T r q sigma_high = Ok ph ->
  (pl - market_price) * (ph - market_price) <= 0 ->
  implied_vol_bisection s market_price S K T r q tol max_iter
    sigma_low sigma_high enforce_bounds
  = bisection_loop (side_name sd) market_price S K T r q tol
      (Z.to_nat max_iter) sigma_low sigma_high
      (pl - market_price) (ph - market_price).
Proof.
  intros Hd Hm HT Hb Hl Hh Hsign.
  unfold implied_vol_bisection.
  rewrite (denotes_str_in s sd Hd). cbn [negb].
  rewrite (flt_false market_price 0) by lra.
  rewrite (fle_false T 0) by lra. cbn [orb].
  rewrite (accepted_guard _ _ _ _ _ _ _ _ Hb).
  pose proof Hd as Hn. red in Hn. rewrite Hn.
  rewrite !(black_scholes_price_normal_form s sd) by exact Hd.
  rewrite Hl, Hh. cbn [bind].
  rewrite (flt_false 0 _) by lra. reflexivity.
Qed.

Lemma bisection_loop_narrow_bracket (s : string)
    (market_price S K T r q tol : R) (n : nat)
    (low high f_low f_high pm : R) :
  black_scholes_price s S K T r q (0.5 * (low + high)) = Ok pm ->
  high - low < tol ->
  bisection_loop s market_price S K T r q tol (Datatypes.S n)
    low high f_low f_high = Ok (Num (0.5 * (low + high))).
Proof.
  intros Hp Hw. cbn [bisection_loop]. rewrite Hp. cbn [bind].
  rewrite (flt_true (high - low) tol Hw), orb_true_r. reflexivity.
Qed.

(** A bracket that starts at the volatility of the given price and is
    narrower than the tolerance: the first iteration returns its midpoint
    on the width test. *)
Lemma bisection_on_narrow_bracket :
  implied_vol_bisection "call" (price Call 100 100 1 0 0 0.2) 100 100 1 0 0
    1e-7 200 0.2 0.20000005 true = Ok (Num (0.5 * (0.2 + 0.20000005))).
Proof.
  destruct (at_the_money_price_accepted 0.2) as [Hp [Hm Hb]]; [lra |].
  rewrite (implied_vol_bisection_accepted "call" Call _ _ _ _ _ _ _ _ _ _ _
             (price Call 100 100 1 0 0 0.2)
             (price Call 100 100 1 0 0 0.20000005));
    [| reflexivity | exact Hm | lra | intros _; exact Hb | exact Hp
     | apply (black_scholes_price_refines "call" Call);
       (reflexivity || lra)
     | nra].
  replace (Z.to_nat 200) with (Datatypes.S 199) by reflexivity.
  apply (bisection_loop_narrow_bracket _ _ _ _ _ _ _ _ _ _ _ _ _
           (price Call 100 100 1 0 0 (0.5 * (0.2 + 0.20000005)))); [| lra].
  apply (black_scholes_price_refines "call" Call); (reflexivity || lra).
Qed.

Lemma bisection_result_postcondition_witness :
  0.2 <= 0.5 * (0.2 + 0.20000005) <= 0.20000005
  /\ exists p,
       black_scholes_price "call" 100 100 1 0 0 (0.5 * (0.2 + 0.20000005))
       = Ok p
       /\ (Rabs (p - price Call 100 100 1 0 0 0.2) < 1e-7
           \/ exists a b pa pb,
                0.2 <= a /\ a <= b /\ b <= 0.20000005
                /\ 0.5 * (0.2 + 0.20000005) = 0.5 * (a + b)
                /\ b - a < 1e-7
                /\ black_scholes_price "call" 100 100 1 0 0 a = Ok pa
                /\ black_scholes_price "call" 100 100 1 0 0 b = Ok pb
                /\ (pa - price Call 100 100 1 0 0 0.2)
                   * (pb - price Call 100 100 1 0 0 0.2) <= 0).
Proof.
  apply (bisection_result_postcondition "call"
           (price Call 100 100 1 0 0 0.2) 100 100 1 0 0 1e-7 200
           0.2 0.20000005 true (0.5 * (0.2 + 0.20000005)));
    [exact bisection_on_narrow_bracket | lra].
Defined.

(** ** Convergence of the bisection *)

Lemma bisection_loop_converges (sd : OptionSide)
    (market_price S K T r q tol : R) :
  0 < S -> 0 < K -> 0 <= T ->
  forall (n : nat) (low high f_low f_high : R),
    0 <= low -> 0 <= high -> high - low < tol * 2 ^ n ->
    exists x,
      bisection_loop (side_name sd) market_price S K T r q tol
        (Datatypes.S n) low high f_low f_high = Ok (Num x).
Proof.
  intros HS HK HT.
  induction n as [| n IH]; intros low high f_low f_high Hlo Hhi Hw;
    cbn [bisection_loop];
    rewrite (black_scholes_price_refines (side_name sd) sd)
      by (try apply denotes_normal; assumption || lra);
    cbn [bind].
  - rewrite (flt_true (high - low) tol) by (simpl in Hw; lra).
    rewrite orb_true_r. eexists. reflexivity.
  - destruct (flt (Rabs _) tol || flt (high - low) tol);
      [eexists; reflexivity |].
    change (2 ^ Datatypes.S n) with (2 * 2 ^ n) in Hw.
    destruct (fle _ 0); apply IH; lra.
Qed.

Lemma bisection_default_width : 5.0 - 1e-6 < 1e-7 * 2 ^ 199.
Proof.
  assert (H : 2 ^ 26 <= 2 ^ 199) by (apply Rle_pow; [lra | lia]).
  assert (H26 : 2 ^ 26 = 67108864) by (simpl; lra).
  lra.
Qed.

(** X10. [implied_vol_bisection] never runs out of iterations when
    sigma_high - sigma_low < tol * 2 ^ (max_iter - 1): for a price that
    passes the rejection checks and whose residuals at the two ends do not
    have the same strict sign it returns a number.  The defaults (width
    below 5, tol = 1e-7, 200 iterations) satisfy the condition. *)
Theorem bisection_never_exhausts (s : string)
    (market_price S K T r q tol : R) (max_iter : Z)
    (sigma_low sigma_high : R) (enforce_bounds : bool) (pl ph : R) :
  0 <= market_price -> 0 < T ->
  (enforce_bounds = true ->
   fst (_no_arbitrage_bounds (strip (lower s)) S K T r q) - 1e-12
   <= market_price
   <= snd (_no_arbitrage_bounds (strip (lower s)) S K T r q) + 1e-12) ->
  black_scholes_price s S K T r q sigma_low = Ok pl ->
  black_scholes_price s S K T r q sigma_high = Ok ph ->
  (pl - market_price) * (ph - market_price) <= 0 ->
  (0 < max_iter)%Z ->
  sigma_high - sigma_low < tol * 2 ^ (Z.to_nat max_iter - 1) ->
  (exists x,
     implied_vol_bisection s market_price S K T r q tol max_iter
       sigma_low sigma_high enforce_bounds = Ok (Num x))
  /\ 5.0 - 1e-6 < 1e-7 * 2 ^ (Z.to_nat 200 - 1).
Proof.
  intros Hm HT Hb Hl Hh Hsign Hit Hw.
  split; [| exact bisection_default_width].
  destruct (black_scholes_price_ok_inv _ _ _ _ _ _ _ _ Hl)
    as [sd [Hd [HS [HK [_ [Hlo _]]]]]].
  destruct (black_scholes_price_ok_inv _ _ _ _ _ _ _ _ Hh)
    as [_ [_ [_ [_ [_ [Hhi _]]]]]].
  rewrite (implied_vol_bisection_accepted s sd _ _ _ _ _ _ _ _ _ _ _ pl ph)
    by assumption.
  destruct (Z.to_nat max_iter) as [| n] eqn:En; [lia |].
  replace (Datatypes.S n - 1)%nat with n in Hw by lia.
  apply bisection_loop_converges; (assumption || lra).
Qed.

Lemma bisection_never_exhausts_witness :
  (exists x,
     implied_vol_bisection "call" (price Call 100 100 1 0 0 1e-6)
       100 100 1 0 0 1e-7 200 1e-6 5.0 true = Ok (Num x))
  /\ 5.0 - 1e-6 < 1e-7 * 2 ^ (Z.to_nat 200 - 1).
Proof.
  destruct (at_the_money_price_accepted 1e-6) as [Hp [Hm Hb]]; [lra |].
  apply (bisection_never_exhausts "call" (price Call 100 100 1 0 0 1e-6)
           100 100 1 0 0 1e-7 200 1e-6 5.0 true
           (price Call 100 100 1 0 0 1e-6) (price Call 100 100 1 0 0 5.0));
    [exact Hm | lra | intros _; exact Hb | exact Hp
     | apply (black_scholes_price_refines "call" Call);
       (reflexivity || lra)
     | nra | lia | exact bisection_default_width].
Defined.

(** ** The top-level solver *)

Lemma implied_vol_newton_returns (s : string) (sd : OptionSide)
    (market_price S K T r q initial_sigma : R) :
  denotes s sd -> 0 < S -> 0 < K ->
  exists v,
    implied_vol_newton_default s market_price S K T r q initial_sigma = Ok v.
Proof.
  intros Hd HS HK. unfold implied_vol_newton_default.
  destruct (implied_vol_newton_head s sd market_price S K T r q
              initial_sigma 1e-7 100 1e-10 1e-6 5.0 true Hd)
    as [Hr | [_ [HT Hl]]]; [exists NaN; exact Hr |].
  rewrite Hl.
  destruct (newton_loop_refines sd market_price S K T r q 1e-7 1e-10 1e-6
              5.0 HS HK HT) with (n := Z.to_nat 100)
    (sigma := Rmin (Rmax initial_sigma 1e-6) 5.0) as [v [Hrun _]];
    [lra | lra | | exists v; exact Hrun].
  rewrite <- pymax_Rmax, <- pymin_Rmin.
  pose proof (clamp_in_range initial_sigma 1e-6 5.0). lra.
Qed.


(** X12. For a price that passes the rejection checks and whose residuals
    at the volatilities 1e-6 and 5.0 do not have the same strict sign,
    [implied_vol] returns a volatility, not the sentinel: when the Newton
    stage fails the bisection stage converges. *)
Theorem implied_vol_solves_bracketed_price (s : string)
    (market_price S K T r q initial_sigma pl ph : R) :
  0 <= market_price -> 0 < T ->
  fst (_no_arbitrage_bounds (strip (lower s)) S K T r q) - 1e-12
  <= market_price
  <= snd (_no_arbitrage_bounds (strip (lower s)) S K T r q) + 1e-12 ->
  black_scholes_price s S K T r q 1e-6 = Ok pl ->
  black_scholes_price s S K T r q 5.0 = Ok ph ->
  (pl - market_price) * (ph - market_price) <= 0 ->
  exists x, implied_vol s market_price S K T r q initial_sigma = Ok (Num x).
Proof.
  intros Hm HT Hb Hl Hh Hsign.
  destruct (black_scholes_price_ok_inv _ _ _ _ _ _ _ _ Hl)
    as [sd [Hd [HS [HK _]]]].
  unfold implied_vol, implied_vol_run.
  destruct (implied_vol_newton_returns s sd market_price S K T r q
              initial_sigma Hd HS HK) as [v Hv].
  rewrite Hv. destruct v as [x |]; cbn [isnan snd].
  - exists x. reflexivity.
  - unfold implied_vol_bisection_default.
    rewrite (implied_vol_bisection_accepted s sd _ _ _ _ _ _ _ _ _ _ _
               pl ph); try assumption; [| intros _; exact Hb].
    replace (Z.to_nat 200) with (Datatypes.S 199) by reflexivity.
    apply bisection_loop_converges;
      [assumption | assumption | lra | lra | lra
      | exact bisection_default_width].
Qed.

Lemma implied_vol_solves_bracketed_price_witness :
  exists x,
    implied_vol "call" (price Call 100 100 1 0 0 1e-6) 100 100 1 0 0 3
    = Ok (Num x).
Proof.
  destruct (at_the_money_price_accepted 1e-6) as [Hp [Hm Hb]]; [lra |].
  apply (implied_vol_solves_bracketed_price "call"
           (price Call 100 100 1 0 0 1e-6) 100 100 1 0 0 3
           (price Call 100 100 1 0 0 1e-6) (price Call 100 100 1 0 0 5.0));
    [exact Hm | lra | exact Hb | exact Hp
     | apply (black_scholes_price_refines "call" Call);
       (reflexivity || lra)
     | nra].
Defined.

(** X13. A number that [implied_vol] returns lies in [[1e-6, 5.0]],
    whatever the initial guess, and passes the convergence test of one of
    the stages: it reprices within 1e-7 of the market price, or it is the
    midpoint of a bracket [[a, b]] with 1e-6 <= a <= b <= 5.0, narrower
    than 1e-7, across which price minus market price does not keep one
    strict sign. *)
Theorem implied_vol_result_postcondition (s : string)
    (market_price S K T r q initial_sigma x : R) :
  implied_vol s market_price S K T r q initial_sigma = Ok (Num x) ->
  1e-6 <= x <= 5.0
  /\ exists p,
       black_scholes_price s S K T r q x = Ok p
       /\ (Rabs (p - market_price) < 1e-7
           \/ exists a b pa pb,
                1e-6 <= a /\ a <= b /\ b <= 5.0
                /\ x = 0.5 * (a + b) /\ b - a < 1e-7
                /\ black_scholes_price s S K T r q a = Ok pa
                /\ black_scholes_price s S K T r q b = Ok pb
                /\ (pa - market_price) * (pb - market_price) <= 0).
Proof.
  unfold implied_vol, implied_vol_run. intros H.
  destruct (implied_vol_newton_default s market_price S K T r q
              initial_sigma) as [[y |] | e] eqn:Hn;
    cbn [isnan snd] in H; [| | discriminate].
  - injection H as H. subst y.
    unfold implied_vol_newton_default in Hn.
    destruct (implied_vol_newton_ok_inv _ _ _ _ _ _ _ _ _ _ _ _ _ _ _ Hn)
      as [sd [Hd [_ [_ Hl]]]].
    destruct (newton_loop_postcondition _ _ _ _ _ _ _ _ _ _ _ _ _ _ Hl)
      as [Hx [p [Hp Hc]]].
    { apply clamp_in_range. lra. }
    split; [exact Hx |]. exists p.
    rewrite <- (black_scholes_price_normal_form s sd) by exact Hd.
    split; [exact Hp | left; exact Hc].
  - unfold implied_vol_bisection_default in H.
    destruct (implied_vol_bisection_ok_inv _ _ _ _ _ _ _ _ _ _ _ _ _ H)
      as [sd [pl [ph [Hd [_ [_ [Hl [Hh [Hsign Hloop]]]]]]]]].
    assert (E : forall y : R,
               black_scholes_price (side_name sd) S K T r q y
               = black_scholes_price s S K T r q y)
      by (intros y; apply black_scholes_price_normal_form; exact Hd).
    destruct (bisection_loop_postcondition (side_name sd) market_price S K
                T r q 1e-7 1e-6 5.0 (Z.to_nat 200) 1e-6 5.0 _ _ x Hloop)
      as [Hx [p [Hp Ht]]]; try lra.
    + rewrite Hl. f_equal. ring.
    + rewrite Hh. f_equal. ring.
    + split; [exact Hx |]. exists p. rewrite <- E. split; [exact Hp |].
      destruct Ht as [Ht | [a [b [pa [pb Hab]]]]]; [left; exact Ht |].
      right. exists a, b, pa, pb. rewrite <- !E. exact Hab.
Qed.

(** A run that goes through both stages. *)

Lemma newton_loop_leaves_range (s : string)
    (market_price S K T r q tol vega_floor sigma_min sigma_max : R)
    (n : nat) (sigma p v : R) :
  black_scholes_price s S K T r q sigma = Ok p ->
  ~ Rabs (p - market_price) < tol ->
  black_scholes_vega S K T r q sigma = Ok v ->
  ~ v < vega_floor -> v <> 0 ->
  sigma - (p - market_price) / v < sigma_min ->
  newton_loop s market_price S K T r q tol vega_floor sigma_min sigma_max
    (Datatypes.S n) sigma = Ok NaN.
Proof.
  intros Hp Hc Hv Hf H0 Hout. cbn [newton_loop]. rewrite Hp. cbn [bind].
  rewrite (flt_false _ _ Hc), Hv. cbn [bind].
  rewrite (flt_false _ _ Hf). unfold fdiv. rewrite (feq_false _ _ H0).
  cbn [bind]. rewrite (flt_true _ _ Hout). reflexivity.
Qed.

Lemma norm_pdf_at_1 : 3.625 * norm_pdf 2.5 <= norm_pdf 1.
Proof.
  unfold norm_pdf.
  replace (- (1 * 1) / 2) with (- (2.5 * 2.5) / 2 + 2.625) by lra.
  rewrite exp_plus.
  pose proof (exp_ineq1_le 2.625) as H1.
  pose proof (exp_pos (- (2.5 * 2.5) / 2)) as H2.
  pose proof sqrt_2PI_pos as H3.
  unfold Rdiv. rewrite <- Rmult_assoc.
  apply Rmult_le_compat_r; [left; apply Rinv_0_lt_compat; exact H3 |].
  nra.
Qed.

Lemma norm_pdf_at_2_5 : 1 / 243 <= norm_pdf 2.5.
Proof.
  unfold norm_pdf.
  assert (E4 : exp 4 <= 81).
  { replace 4 with (1 + 1 + (1 + 1)) by lra. rewrite !exp_plus.
    pose proof exp_le_3 as H. pose proof (exp_pos 1) as H'.
    assert (H2 : exp 1 * exp 1 <= 9) by nra.
    assert (H2' : 0 < exp 1 * exp 1) by nra.
    nra. }
  assert (E : exp ((2.5 * 2.5) / 2) <= 81).
  { apply Rle_trans with (exp 4); [| exact E4].
    left. apply exp_increasing. lra. }
  assert (Hinv : exp (- (2.5 * 2.5) / 2) * exp ((2.5 * 2.5) / 2) = 1).
  { rewrite <- exp_plus.
    replace (- (2.5 * 2.5) / 2 + 2.5 * 2.5 / 2) with 0 by lra. apply exp_0. }
  pose proof (exp_pos (- (2.5 * 2.5) / 2)) as Hp.
  pose proof (exp_pos ((2.5 * 2.5) / 2)) as Hp'.
  assert (Hlow : 1 / 81 <= exp (- (2.5 * 2.5) / 2)) by nra.
  assert (Hc : sqrt (2 * PI) <= 3).
  { replace 3 with (sqrt 9).
    - apply sqrt_le_1; pose proof PI_4; pose proof PI_RGT_0; lra.
    - replace 9 with (3 * 3) by lra. apply sqrt_square. lra. }
  pose proof sqrt_2PI_pos as H3.
  apply Rmult_le_reg_r with (sqrt (2 * PI)); [exact H3 |].
  unfold Rdiv. rewrite (Rmult_assoc (exp _)), Rinv_l by lra. nra.
Qed.

Lemma d1_at_the_money (S sigma : R) :
  0 < S -> 0 < sigma -> d1 S S 1 0 0 sigma = sigma / 2.
Proof.
  intros HS Hs. unfold d1. replace (S / S) with 1 by (field; lra).
  rewrite ln_1, sqrt_1. replace 0.5 with (1 / 2) by lra. field. lra.
Qed.

Lemma vega_at_the_money (S sigma : R) :
  0 < S -> 0 < sigma -> vega S S 1 0 0 sigma = S * norm_pdf (sigma / 2).
Proof.
  intros HS Hs. unfold vega.
  rewrite (feq_false 1 0) by lra. rewrite (feq_false sigma 0) by lra.
  cbn [orb]. rewrite d1_at_the_money by assumption.
  replace (- 0 * 1) with 0 by ring. rewrite exp_0, sqrt_1. ring.
Qed.

Lemma norm_cdf_at_2_5 : 1 / 2 + norm_pdf 1 <= norm_cdf 2.5.
Proof.
  unfold norm_cdf. rewrite <- (norm_pdf_mass_chasles 0 1 2.5).
  pose proof (norm_pdf_mass_lower 0 1 (norm_pdf 1)) as H1.
  pose proof (norm_pdf_mass_lower 1 2.5 0) as H2.
  assert (A1 : forall y : R, 0 < y < 1 -> norm_pdf 1 <= norm_pdf y).
  { intros y Hy. unfold norm_pdf.
    pose proof sqrt_2PI_pos as Hc.
    apply Rmult_le_compat_r; [left; apply Rinv_0_lt_compat; exact Hc |].
    destruct (Rle_lt_or_eq_dec (- (1 * 1) / 2) (- (y * y) / 2)) as [Hl | He];
      [nra | left; apply exp_increasing; exact Hl | rewrite He; lra]. }
  assert (A2 : forall y : R, 1 < y < 2.5 -> 0 <= norm_pdf y)
    by (intros y _; pose proof (norm_pdf_pos y); lra).
  assert (L1 : 0 <= 1) by lra. assert (L2 : 1 <= 2.5) by lra.
  specialize (H1 L1 A1). specialize (H2 L2 A2). lra.
Qed.

(** Started at the guess 5 on the at-the-money price of the volatility
    1e-6, the first Newton step lands below sigma_min: the Newton stage
    gives up and the bisection stage answers. *)
Lemma newton_overshoots :
  implied_vol_newton_default "call" (price Call 100 100 1 0 0 1e-6)
    100 100 1 0 0 5 = Ok NaN.
Proof.
  destruct (at_the_money_price_accepted 1e-6) as [_ [Hm Hb]]; [lra |].
  pose proof (price_at_the_money_bounds 100 1e-6) as B.
  assert (H100 : 0 < 100) by lra. assert (Hs : 0 < 1e-6) by lra.
  specialize (B H100 Hs).
  set (mp := price Call 100 100 1 0 0 1e-6) in *.
  assert (Hp5 : price Call 100 100 1 0 0 5 = 100 * (2 * norm_cdf 2.5 - 1)).
  { rewrite price_at_the_money by lra.
    replace (5 / 2) with 2.5 by lra. reflexivity. }
  assert (Hv5 : vega 100 100 1 0 0 5 = 100 * norm_pdf 2.5).
  { rewrite vega_at_the_money by lra.
    replace (5 / 2) with 2.5 by lra. reflexivity. }
  pose proof norm_cdf_at_2_5 as C1. pose proof norm_pdf_at_1 as C2.
  pose proof norm_pdf_at_2_5 as C3.
  set (a := norm_pdf 2.5) in *.
  assert (Hdiff : 725 * a - 1e-4 <= price Call 100 100 1 0 0 5 - mp)
    by (rewrite Hp5; lra).
  unfold implied_vol_newton_default, implied_vol_newton.
  change (strip (lower "call")) with "call".
  change (str_in "call" ["call"; "put"]) with true. cbn [negb].
  rewrite (flt_false mp 0) by lra. rewrite (fle_false 1 0) by lra.
  rewrite (accepted_guard "call" mp 100 100 1 0 0 true)
    by (intros _; exact Hb).
  rewrite (clamp_of_in_range 5 1e-6 5.0) by lra.
  replace (Z.to_nat 100) with (Datatypes.S 99) by reflexivity.
  apply (newton_loop_leaves_range "call" mp 100 100 1 0 0 1e-7 1e-10 1e-6
           5.0 99 5 (price Call 100 100 1 0 0 5) (vega 100 100 1 0 0 5)).
  - apply (black_scholes_price_refines "call" Call); (reflexivity || lra).
  - unfold Rabs. destruct (Rcase_abs _); lra.
  - apply black_scholes_vega_refines; lra.
  - rewrite Hv5. lra.
  - rewrite Hv5. lra.
  - rewrite Hv5.
    assert (Hq : 5 - 1e-6 < (price Call 100 100 1 0 0 5 - mp) / (100 * a)).
    { apply Rmult_lt_reg_r with (100 * a); [lra |].
      unfold Rdiv. rewrite Rmult_assoc, Rinv_l by lra. lra. }
    lra.
Qed.

Lemma implied_vol_after_overshoot :
  exists x,
    implied_vol "call" (price Call 100 100 1 0 0 1e-6) 100 100 1 0 0 5
    = Ok (Num x).
Proof.
  destruct (at_the_money_price_accepted 1e-6) as [Hp [Hm Hb]]; [lra |].
  unfold implied_vol, implied_vol_run. rewrite newton_overshoots.
  cbn [isnan snd]. unfold implied_vol_bisection_default.
  rewrite (implied_vol_bisection_accepted "call" Call _ _ _ _ _ _ _ _ _ _ _
             (price Call 100 100 1 0 0 1e-6) (price Call 100 100 1 0 0 5.0));
    [| reflexivity | exact Hm | lra | intros _; exact Hb | exact Hp
     | apply (black_scholes_price_refines "call" Call);
       (reflexivity || lra)
     | nra].
  replace (Z.to_nat 200) with (Datatypes.S 199) by reflexivity.
  apply (bisection_loop_converges Call);
    [lra | lra | lra | lra | lra | exact bisection_default_width].
Qed.

Lemma implied_vol_result_postcondition_witness :
  implied_vol_newton_default "call" (price Call 100 100 1 0 0 1e-6)
    100 100 1 0 0 5 = Ok NaN
  /\ exists x,
       implied_vol "call" (price Call 100 100 1 0 0 1e-6) 100 100 1 0 0 5
       = Ok (Num x)
       /\ 1e-6 <= x <= 5.0
       /\ exists p,
            black_scholes_price "call" 100 100 1 0 0 x = Ok p
            /\ (Rabs (p - price Call 100 100 1 0 0 1e-6) < 1e-7
                \/ exists a b pa pb,
                     1e-6 <= a /\ a <= b /\ b <= 5.0 /\ x = 0.5 * (a + b)
                     /\ b - a < 1e-7
                     /\ black_scholes_price "call" 100 100 1 0 0 a = Ok pa
                     /\ black_scholes_price "call" 100 100 1 0 0 b = Ok pb
                     /\ (pa - price Call 100 100 1 0 0 1e-6)
                        * (pb - price Call 100 100 1 0 0 1e-6) <= 0).
Proof.
  split; [exact newton_overshoots |].
  destruct implied_vol_after_overshoot as [x Hx].
  exists x. split; [exact Hx |].
  apply (implied_vol_result_postcondition "call"
           (price Call 100 100 1 0 0 1e-6) 100 100 1 0 0 5 x).
  exact Hx.
Defined.

(** X14. Round trip with the exact guess: when the market price is the
    price the pricer gives for a volatility sigma in [[1e-6, 5.0]], is
    non-negative and within the no-arbitrage bounds, and T > 0, then
    [implied_vol] started at sigma returns sigma itself. *)
Theorem exact_guess_round_trip (s : string)
    (market_price S K T r q sigma : R) :
  black_scholes_price s S K T r q sigma = Ok market_price ->
  0 <= market_price -> 0 < T ->
  fst (_no_arbitrage_bounds (strip (lower s)) S K T r q) - 1e-12
  <= market_price
  <= snd (_no_arbitrage_bounds (strip (lower s)) S K T r q) + 1e-12 ->
  1e-6 <= sigma <= 5.0 ->
  implied_vol s market_price S K T r q sigma = Ok (Num sigma).
Proof.
  intros Hp Hm HT Hb Hr.
  unfold implied_vol, implied_vol_run, implied_vol_newton_default.
  rewrite (newton_accepts_exact_guess s market_price S K T r q sigma 1e-7
             100 1e-10 1e-6 5.0 true Hp Hm HT);
    [reflexivity | intros _; exact Hb | lra | lia | exact Hr].
Qed.

Lemma exact_guess_round_trip_witness :
  implied_vol "call" (price Call 100 100 1 0 0 0.35) 100 100 1 0 0 0.35
  = Ok (Num 0.35).
Proof.
  destruct (at_the_money_price_accepted 0.35) as [Hp [Hm Hb]]; [lra |].
  apply (exact_guess_round_trip "call" (price Call 100 100 1 0 0 0.35)
           100 100 1 0 0 0.35);
    [exact Hp | exact Hm | lra | exact Hb | lra].
Defined.

(** ** Structural errors through the solvers *)

Lemma black_scholes_price_rejects_spot_or_strike (s : string)
    (sd : OptionSide) (S K T r q sigma : R) :
  denotes s sd -> S <= 0 \/ K <= 0 ->
  exists msg,
    black_scholes_price s S K T r q sigma = Raise (ValueError msg).
Proof.
  intros Hd H. unfold black_scholes_price.
  rewrite (denotes_str_in s sd Hd). cbn [negb]. unfold _validate_inputs.
  destruct (Rle_dec S 0) as [HS | HS].
  - rewrite (fle_true S 0 HS). eexists. reflexivity.
  - rewrite (fle_false S 0 HS).
    rewrite (fle_true K 0) by tauto. eexists. reflexivity.
Qed.

(** X15. A non-positive spot or strike is not turned into the sentinel:
    for a price that passes the rejection checks, [implied_vol_bisection]
    raises the [ValueError] of the pricer, and so do [implied_vol_newton]
    when it is allowed at least one iteration and [implied_vol]. *)
Theorem solvers_propagate_structural_errors (s : string) (sd : OptionSide)
    (market_price S K T r q initial_sigma tol : R) (max_iter : Z)
    (vega_floor sigma_min sigma_max : R)
    (tol' : R) (max_iter' : Z) (sigma_low sigma_high : R)
    (enforce_bounds : bool) :
  denotes s sd -> 0 <= market_price -> 0 < T ->
  fst (_no_arbitrage_bounds (strip (lower s)) S K T r q) - 1e-12
  <= market_price
  <= snd (_no_arbitrage_bounds (strip (lower s)) S K T r q) + 1e-12 ->
  S <= 0 \/ K <= 0 ->
  (exists msg,
     implied_vol_bisection s market_price S K T r q tol' max_iter'
       sigma_low sigma_high enforce_bounds = Raise (ValueError msg))
  /\ ((0 < max_iter)%Z ->
      exists msg,
        implied_vol_newton s market_price S K T r q initial_sigma tol
          max_iter vega_floor sigma_min sigma_max enforce_bounds
        = Raise (ValueError msg))
  /\ exists msg,
       implied_vol s market_price S K T r q initial_sigma
       = Raise (ValueError msg).
Proof.
  intros Hd Hm HT Hb Hbad.
  assert (P : forall x,
             exists msg,
               black_scholes_price (side_name sd) S K T r q x
               = Raise (ValueError msg)).
  { intros x. apply (black_scholes_price_rejects_spot_or_strike _ sd);
      [apply denotes_normal | exact Hbad]. }
  assert (N : forall sigma0 tl (mi : Z) vf smin smax eb,
             (0 < mi)%Z ->
             exists msg,
               implied_vol_newton s market_price S K T r q sigma0 tl mi vf
                 smin smax eb = Raise (ValueError msg)).
  { intros sigma0 tl mi vf smin smax eb Hmi. unfold implied_vol_newton.
    rewrite (denotes_str_in s sd Hd). cbn [negb].
    rewrite (flt_false market_price 0) by lra.
    rewrite (fle_false T 0) by lra.
    rewrite (accepted_guard _ _ _ _ _ _ _ eb (fun _ => Hb)).
    pose proof Hd as Hn. red in Hn. rewrite Hn.
    destruct (Z.to_nat mi) as [| n] eqn:En; [lia |].
    cbn [newton_loop].
    destruct (P (pymin (pymax sigma0 smin) smax)) as [msg ->].
    exists msg. reflexivity. }
  split; [| split].
  - unfold implied_vol_bisection.
    rewrite (denotes_str_in s sd Hd). cbn [negb].
    rewrite (flt_false market_price 0) by lra.
    rewrite (fle_false T 0) by lra. cbn [orb].
    rewrite (accepted_guard _ _ _ _ _ _ _ enforce_bounds (fun _ => Hb)).
    pose proof Hd as Hn. red in Hn. rewrite Hn.
    destruct (P sigma_low) as [msg ->]. exists msg. reflexivity.
  - apply N.
  - unfold implied_vol, implied_vol_run, implied_vol_newton_default.
    destruct (N initial_sigma 1e-7 100%Z 1e-10 1e-6 5.0 true) as [msg ->];
      [lia |].
    exists msg. reflexivity.
Qed.

Lemma solvers_propagate_structural_errors_witness :
  (exists msg,
     implied_vol_bisection "call" 0 0 100 1 0 0 1e-7 200 1e-6 5.0 true
     = Raise (ValueError msg))
  /\ ((0 < 100)%Z ->
      exists msg,
        implied_vol_newton "call" 0 0 100 1 0 0 0.2 1e-7 100 1e-10 1e-6 5.0
          true = Raise (ValueError msg))
  /\ exists msg,
       implied_vol "call" 0 0 100 1 0 0 0.2 = Raise (ValueError msg).
Proof.
  apply (solvers_propagate_structural_errors "call" Call 0 0 100 1 0 0 0.2
           1e-7 100 1e-10 1e-6 5.0 1e-7 200 1e-6 5.0 true);
    [reflexivity | lra | lra | | left; lra].
  change (strip (lower "call")) with (side_name Call).
  rewrite _no_arbitrage_bounds_refines. unfold bounds. cbn [fst snd].
  replace (- 0 * 1) with 0 by ring. rewrite exp_0. unfold Rmax.
  destruct (Rle_dec 0 (0 * 1 - 100 * 1)); lra.
Defined.

(** ** Rejection at the top level *)

Lemma rejected_guard (s : string) (market_price S K T r q : R) :
  market_price < fst (_no_arbitrage_bounds s S K T r q) - 1e-12
  \/ snd (_no_arbitrage_bounds s S K T r q) + 1e-12 < market_price ->
  (let (lb, ub) := _no_arbitrage_bounds s S K T r q in
   outside_bounds lb ub market_price) = true.
Proof.
  destruct (_no_arbitrage_bounds s S K T r q) as [lb ub]. cbn [fst snd].
  intros H. unfold outside_bounds. destruct H as [H | H].
  - rewrite (fle_false (lb - 1e-12) market_price) by lra. reflexivity.
  - rewrite (fle_false market_price (ub + 1e-12)) by lra.
    rewrite andb_false_r. reflexivity.
Qed.

(** X16. [implied_vol] returns the not-a-number sentinel, through both of
    its stages, for a negative market price, for T <= 0, and for a market
    price more than 1e-12 outside the no-arbitrage bounds, whatever the
    spot, the strike and the initial guess. *)
Theorem implied_vol_rejects (s : string) (sd : OptionSide)
    (market_price S K T r q initial_sigma : R) :
  denotes s sd ->
  market_price < 0 \/ T <= 0
  \/ market_price
     < fst (_no_arbitrage_bounds (strip (lower s)) S K T r q) - 1e-12
  \/ snd (_no_arbitrage_bounds (strip (lower s)) S K T r q) + 1e-12
     < market_price ->
  implied_vol s market_price S K T r q initial_sigma = Ok NaN
  /\ fst (implied_vol_run s market_price S K T r q initial_sigma)
     = [Newton; Bisection].
Proof.
  intros Hd Hrej.
  assert (N : implied_vol_newton_default s market_price S K T r q
                initial_sigma = Ok NaN).
  { unfold implied_vol_newton_default, implied_vol_newton.
    rewrite (denotes_str_in s sd Hd). cbn [negb].
    destruct (flt market_price 0) eqn:E1; [reflexivity |].
    destruct (fle T 0) eqn:E2; [reflexivity |].
    apply flt_false_inv in E1. apply fle_false_inv in E2.
    rewrite rejected_guard by (destruct Hrej as [H | [H | H]];
                               [lra | lra | exact H]).
    reflexivity. }
  assert (B : implied_vol_bisection_default s market_price S K T r q
              = Ok NaN).
  { unfold implied_vol_bisection_default, implied_vol_bisection.
    rewrite (denotes_str_in s sd Hd). cbn [negb].
    destruct (flt market_price 0) eqn:E1; [reflexivity |].
    destruct (fle T 0) eqn:E2; [reflexivity |].
    apply flt_false_inv in E1. apply fle_false_inv in E2. cbn [orb].
    rewrite rejected_guard by (destruct Hrej as [H | [H | H]];
                               [lra | lra | exact H]).
    reflexivity. }
  unfold implied_vol, implied_vol_run. rewrite N. cbn [isnan fst snd].
  split; [exact B | reflexivity].
Qed.

Lemma implied_vol_rejects_witness :
  implied_vol "call" (-1) 100 100 1 0.05 0 0.2 = Ok NaN
  /\ fst (implied_vol_run "call" (-1) 100 100 1 0.05 0 0.2)
     = [Newton; Bisection].
Proof.
  apply (implied_vol_rejects "call" Call (-1) 100 100 1 0.05 0 0.2);
    [reflexivity | left; lra].
Defined.

(** * The round trip, amended *)





(** At the input where the round trip within 1e-4 fails, the price is
    neither rejected nor unbracketed: there the amended statement asks for
    a number. *)
Lemma price_at_the_money_increasing (S x y : R) :
  0 < S -> 0 < x -> x <= y ->
  price Call S S 1 0 0 x <= price Call S S 1 0 0 y.
Proof.
  intros HS Hx Hxy. rewrite !price_at_the_money by lra.
  pose proof (norm_cdf_increasing (x / 2) (y / 2)) as H.
  assert (H0 : x / 2 <= y / 2) by lra. specialize (H H0).
  apply Rmult_le_compat_l; lra.
Qed.

Lemma small_price_is_solvable :
  ~ unsolvable Call (price Call 1e-8 1e-8 1 0 0 0.05) 1e-8 1e-8 1 0 0.
Proof.
  set (p := price Call 1e-8 1e-8 1 0 0 0.05).
  pose proof (price_at_the_money_bounds 1e-8 0.05) as B.
  assert (H1 : 0 < 1e-8) by lra. assert (H2 : 0 < 0.05) by lra.
  specialize (B H1 H2). fold p in B.
  pose proof (price_at_the_money_increasing 1e-8 1e-6 0.05 H1) as L1.
  pose proof (price_at_the_money_increasing 1e-8 0.05 5.0 H1) as L2.
  assert (L1' : price Call 1e-8 1e-8 1 0 0 1e-6 <= p) by (apply L1; lra).
  assert (L2' : p <= price Call 1e-8 1e-8 1 0 0 5.0) by (apply L2; lra).
  unfold unsolvable, rejected, bounds. cbn [fst snd].
  replace (- 0 * 1) with 0 by ring. rewrite exp_0.
  intros [[H | [H | [_ [H | H]]]] | H]; try lra.
  - revert H. unfold Rmax.
    destruct (Rle_dec 0 (1e-8 * 1 - 1e-8 * 1)); lra.
  - nra.
Qed.


